(** * filefinder: a shallow embedding of [_filefinder.py]

    The development follows the module top to bottom: first the Python and
    pandas values the module manipulates, then the helpers it imports from
    [utils], then [FinderBase], [Finder], [FileFinder] and [FileContainer].
    The file system ([glob.glob]), the template engine ([str.format] and
    [parse.compile]) and the key extractor are parameters of the development:
    every theorem holds for each state of the file system and each engine. *)

From Stdlib Require Import String Ascii List ZArith NArith Lia Sorting Permutation Bool.
From stdpp Require Import base option gmap strings list.
Import ListNotations.
Open Scope string_scope.
Open Scope list_scope.

(** ** Python values *)

(** The exceptions the module raises or lets through.  [KeyError key] has
    the key as its argument; [KeyErrorMissing labels] is the [KeyError]
    pandas raises when it looks up or drops several labels at once, whose
    message names the labels that are missing. *)
Inductive exn : Type :=
| ValueError (msg : string)
| KeyError (key : string)
| KeyErrorMissing (labels : list string)
| IndexError (msg : string)
| TypeError (msg : string)
| AttributeError (msg : string).

(** A computation that returns a value or raises. *)
Definition result (A : Type) : Type := exn + A.

Definition ret {A} (a : A) : result A := inr a.
Definition raise {A} (e : exn) : result A := inl e.

Definition bind {A B} (m : result A) (k : A -> result B) : result B :=
  match m with
  | inl e => inl e
  | inr a => k a
  end.

Notation "'let*' x ':=' m 'in' k" := (bind m (fun x => k))
  (at level 10, x name, m at level 100, k at level 200).
Notation "'let*' ' p ':=' m 'in' k" := (bind m (fun x => let 'p := x in k))
  (at level 10, p pattern, m at level 100, k at level 200).

(** A Python [dict] with string keys: the items in insertion order. *)
Definition dict (V : Type) : Type := list (string * V).

Fixpoint dict_get {V} (d : dict V) (k : string) : option V :=
  match d with
  | [] => None
  | (k', v) :: d' => if String.eqb k' k then Some v else dict_get d' k
  end.

(** [d[k] = v]: an existing key keeps its position, a new one goes last. *)
Fixpoint dict_set {V} (d : dict V) (k : string) (v : V) : dict V :=
  match d with
  | [] => [(k, v)]
  | (k', v') :: d' =>
      if String.eqb k' k then (k', v) :: d' else (k', v') :: dict_set d' k v
  end.

(** [d.update] with keyword arguments. *)
Definition dict_update {V} (d kw : dict V) : dict V :=
  fold_left (fun acc kv => dict_set acc (fst kv) (snd kv)) kw d.

(** A keyword value of [find]: a string, or a list of candidate strings. *)
Inductive kwvalue : Type :=
| VStr (s : string)
| VList (l : list string).

(** ** Natural ordering of paths *)

(** One element of a natural key: a run of non-digits, kept as text, or a
    run of digits, read as an integer. *)
Inductive natural_key : Type :=
| KText (s : string)
| KNum (n : N).

Definition digit_of (c : ascii) : option N :=
  let n := N_of_ascii c in
  if ((48 <=? n) && (n <=? 57))%N then Some (n - 48)%N else None.

(** The scanner is inside a run of non-digits or inside a run of digits. *)
Inductive run : Type :=
| InText (acc : string)
| InNum (acc : N).

Fixpoint scan_runs (st : run) (s : string) : list natural_key :=
  match s with
  | EmptyString =>
      match st with
      | InText t => [KText t]
      | InNum n => [KNum n; KText ""]
      end
  | String c s' =>
      match st, digit_of c with
      | InText t, Some d => KText t :: scan_runs (InNum d) s'
      | InText t, None => scan_runs (InText (t +:+ String c "")) s'
      | InNum n, Some d => scan_runs (InNum (10 * n + d)%N) s'
      | InNum n, None => KNum n :: scan_runs (InText (String c "")) s'
      end
  end.

(** Modelled from the spec: [natural_keys] lives in [utils], which is not
    part of the sources at hand.  The spec splits a path into runs of digits
    and non-digits, digit runs being compared numerically and non-digit runs
    lexically.  The runs alternate, the first and the last one being a
    (possibly empty) run of non-digits, so that a digit run always meets a
    digit run in a comparison. *)
Definition natural_keys (text : string) : list natural_key :=
  scan_runs (InText "") text.

(** Comparison of two runs.  Python raises [TypeError] on an [int] against a
    [str]; two natural keys never meet that way ([keys_compare_py] below
    keeps the error), and the order puts text first there. *)
Definition key_compare (a b : natural_key) : comparison :=
  match a, b with
  | KText s, KText t => String.compare s t
  | KNum n, KNum m => N.compare n m
  | KText _, KNum _ => Lt
  | KNum _, KText _ => Gt
  end.

(** Python's comparison of two lists: the first differing element decides,
    a proper prefix is smaller. *)
Fixpoint keys_compare (k1 k2 : list natural_key) : comparison :=
  match k1, k2 with
  | [], [] => Eq
  | [], _ :: _ => Lt
  | _ :: _, [] => Gt
  | a :: k1', b :: k2' =>
      match key_compare a b with
      | Eq => keys_compare k1' k2'
      | c => c
      end
  end.

Definition natural_compare (p q : string) : comparison :=
  keys_compare (natural_keys p) (natural_keys q).

Definition natural_ltb (p q : string) : bool :=
  match natural_compare p q with Lt => true | _ => false end.

(** [p] comes no later than [q] in natural order. *)
Definition natural_le (p q : string) : Prop := natural_compare p q <> Gt.

(** The comparison as Python runs it: the first position where the two
    lists differ decides, and an [int] against a [str] there is a
    [TypeError], here [None]. *)
Definition key_compare_py (a b : natural_key) : option comparison :=
  match a, b with
  | KText s, KText t => Some (String.compare s t)
  | KNum n, KNum m => Some (N.compare n m)
  | _, _ => None
  end.

Fixpoint keys_compare_py (k1 k2 : list natural_key) : option comparison :=
  match k1, k2 with
  | [], [] => Some Eq
  | [], _ :: _ => Some Lt
  | _ :: _, [] => Some Gt
  | a :: k1', b :: k2' =>
      match key_compare_py a b with
      | Some Eq => keys_compare_py k1' k2'
      | c => c
      end
  end.

(** The shape of a natural key: text and numbers in turn, text first. *)
Fixpoint text_first (k : list natural_key) : Prop :=
  match k with
  | KText _ :: k' =>
      match k' with
      | [] => True
      | KNum _ :: k'' => text_first k''
      | KText _ :: _ => False
      end
  | _ => False
  end.

(** [sorted(paths, key=natural_keys)]: Python's sort is stable, an element
    goes in front of the first later element that is not smaller. *)
Fixpoint sorted_insert (x : string) (l : list string) : list string :=
  match l with
  | [] => [x]
  | y :: l' => if natural_ltb y x then y :: sorted_insert x l' else x :: y :: l'
  end.

Definition sorted_natural (paths : list string) : list string :=
  fold_right sorted_insert [] paths.

(** ** The part of pandas the module uses *)

(** A cell of a frame: a string, or one of the two fillers pandas puts where
    a value is missing ([None] in ragged input, [nan] after a concatenation
    of frames over different columns). *)
Inductive cell : Type :=
| Str (s : string)
| PyNone
| NaN.

(** [str(x)] of a cell. *)
Definition cell_str (c : cell) : string :=
  match c with
  | Str s => s
  | PyNone => "None"
  | NaN => "nan"
  end.

(** A [DataFrame]: named columns and rows of cells.  The index labels are
    left out: the module reads rows by position only ([iloc], boolean
    masks), so [reset_index(drop=True)] is the identity here. *)
Record DataFrame : Type := mkDataFrame {
  columns : list string;
  rows : list (list cell)
}.

Definition reset_index (d : DataFrame) : DataFrame := d.

Definition pad_row (width : nat) (r : list cell) : list cell :=
  r ++ repeat PyNone (width - length r).

Definition data_width (data : list (list cell)) : nat :=
  fold_right (fun r m => Nat.max (length r) m) 0 data.

Definition pd_width_msg : string := "columns passed, passed data had other columns".

(** [pd.DataFrame(data, columns=cols)] on a list of rows: short rows are
    filled up with [None], and the width of the data has to be the number of
    column names. *)
Definition pd_DataFrame (data : list (list cell)) (cols : list string)
  : result DataFrame :=
  match data with
  | [] => ret (mkDataFrame cols [])
  | _ :: _ =>
      let width := data_width data in
      if Nat.eqb width (length cols)
      then ret (mkDataFrame cols (map (pad_row width) data))
      else raise (ValueError pd_width_msg)
  end.

Fixpoint index_of (k : string) (cols : list string) : option nat :=
  match cols with
  | [] => None
  | c :: cols' =>
      if String.eqb c k then Some 0
      else match index_of k cols' with
           | Some i => Some (S i)
           | None => None
           end
  end.

(** The cell of a row under a column position. *)
Definition row_cell (i : nat) (r : list cell) : cell := nth i r NaN.

(** [df[key]]: the column of that name, [KeyError] when there is none. *)
Definition df_getitem (d : DataFrame) (key : string) : result (list cell) :=
  match index_of key (columns d) with
  | Some i => ret (map (row_cell i) (rows d))
  | None => raise (KeyError key)
  end.

(** [sep.join(parts)]. *)
Fixpoint str_join (sep : string) (parts : list string) : string :=
  match parts with
  | [] => ""
  | [p] => p
  | p :: parts' => p +:+ sep +:+ str_join sep parts'
  end.

Definition mem_string (x : string) (l : list string) : bool :=
  existsb (String.eqb x) l.

Fixpoint unique_from (seen l : list string) : list string :=
  match l with
  | [] => []
  | x :: l' =>
      if mem_string x seen then unique_from seen l'
      else x :: unique_from (x :: seen) l'
  end.

(** [Series.unique()]: the distinct values in order of first appearance. *)
Definition unique (l : list string) : list string := unique_from [] l.

(** [Index.drop(label)]: all entries of that name go; when there is none,
    the [KeyError] that names the label as not found. *)
Definition index_drop (label : string) (cols : list string) : result (list string) :=
  if mem_string label cols
  then ret (List.filter (fun c => negb (String.eqb c label)) cols)
  else raise (KeyErrorMissing [label]).

(** The labels of a list that are no column, each once. *)
Definition missing_labels (cols keys : list string) : list string :=
  unique (List.filter (fun k => negb (mem_string k cols)) keys).

Fixpoint lookup_positions (keys cols : list string) : option (list nat) :=
  match keys with
  | [] => Some []
  | k :: keys' =>
      match index_of k cols, lookup_positions keys' cols with
      | Some i, Some idx => Some (i :: idx)
      | _, _ => None
      end
  end.

(** The positions of a list of labels among the columns.  pandas looks up
    all labels and raises one [KeyError] for those that are missing. *)
Definition positions (keys cols : list string) : result (list nat) :=
  match lookup_positions keys cols with
  | Some idx => ret idx
  | None => raise (KeyErrorMissing (missing_labels cols keys))
  end.

(** [df[keys]] for a list of column names. *)
Definition df_getitems (d : DataFrame) (keys : list string) : result DataFrame :=
  let* idx := positions keys (columns d) in
  ret (mkDataFrame keys (map (fun r => map (fun i => row_cell i r) idx) (rows d))).

Fixpoint map2 {A B C} (f : A -> B -> C) (l1 : list A) (l2 : list B) : list C :=
  match l1, l2 with
  | a :: l1', b :: l2' => f a b :: map2 f l1' l2'
  | _, _ => []
  end.

(** [series == value], element by element; a filler equals no string. *)
Definition series_eq (col : list cell) (v : string) : list bool :=
  map (fun c => match c with Str s => String.eqb s v | _ => false end) col.

Fixpoint mask_select {A} (mask : list bool) (l : list A) : list A :=
  match mask, l with
  | b :: mask', x :: l' => if b then x :: mask_select mask' l' else mask_select mask' l'
  | _, _ => []
  end.

(** [df.loc[condition]] for a boolean array as long as the frame. *)
Definition df_loc (d : DataFrame) (condition : list bool) : DataFrame :=
  mkDataFrame (columns d) (mask_select condition (rows d)).

Definition all_equal (cols : list string) (l : list (list string)) : bool :=
  forallb (fun c => bool_decide (c = cols)) l.

Definition union_columns (l : list (list string)) : list string :=
  fold_left (fun acc cols =>
               acc ++ List.filter (fun c => negb (mem_string c acc)) cols) l [].

Definition reindex_row (from to : list string) (r : list cell) : list cell :=
  map (fun c => match index_of c from with
                | Some i => row_cell i r
                | None => NaN
                end) to.

(** [pd.concat(frames)]: the rows of the frames one after the other.  Frames
    over the same columns are appended as they are; otherwise the columns
    are the union in order of appearance, with [nan] where a frame has no
    such column. *)
Definition pd_concat (frames : list DataFrame) : DataFrame :=
  match frames with
  | [] => mkDataFrame [] []
  | d :: _ =>
      if all_equal (columns d) (map columns frames)
      then mkDataFrame (columns d) (concat (map rows frames))
      else
        let cols := union_columns (map columns frames) in
        mkDataFrame cols
          (concat (map (fun f => map (reindex_row (columns f) cols) (rows f)) frames))
  end.

(** *** Positional indexing *)

(** The positions a slice [start:stop:step] selects in a sequence of [len]
    elements ([step] is not zero). *)
Definition slice_indices (start stop : option Z) (step len : Z) : list Z :=
  let clamp (lo hi : Z) (v : Z) : Z :=
    let v := if (v <? 0)%Z then (v + len)%Z else v in
    Z.max lo (Z.min hi v) in
  if (0 <? step)%Z then
    let a := match start with Some v => clamp 0%Z len v | None => 0%Z end in
    let b := match stop with Some v => clamp 0%Z len v | None => len end in
    let n := if (a <? b)%Z then ((b - a + step - 1) / step)%Z else 0%Z in
    map (fun k => (a + Z.of_nat k * step)%Z) (seq 0 (Z.to_nat n))
  else
    let a := match start with Some v => clamp (-1)%Z (len - 1)%Z v | None => (len - 1)%Z end in
    let b := match stop with Some v => clamp (-1)%Z (len - 1)%Z v | None => (-1)%Z end in
    let n := if (b <? a)%Z then ((a - b - step - 1) / (- step))%Z else 0%Z in
    map (fun k => (a + Z.of_nat k * step)%Z) (seq 0 (Z.to_nat n)).

(** A position given to [iloc], counted from the end when negative. *)
Definition normalize_index (len i : Z) : option nat :=
  if ((- len <=? i) && (i <? len))%Z
  then Some (Z.to_nat (if (i <? 0)%Z then i + len else i)%Z)
  else None.

Fixpoint take_rows {A} (l : list A) (idx : list Z) : result (list A) :=
  match idx with
  | [] => ret []
  | i :: idx' =>
      match normalize_index (Z.of_nat (length l)) i with
      | Some n =>
          match nth_error l n with
          | Some x => let* xs := take_rows l idx' in ret (x :: xs)
          | None => raise (IndexError "positional indexers are out-of-bounds")
          end
      | None => raise (IndexError "positional indexers are out-of-bounds")
      end
  end.

(** What [__getitem__] is given when it is not an integer. *)
Inductive indexer : Type :=
| ISlice (start stop step : option Z)
| IList (l : list Z).

(** [df.iloc[key]] for a slice or a list of positions. *)
Definition df_iloc (d : DataFrame) (key : indexer) : result DataFrame :=
  match key with
  | ISlice start stop step =>
      let step := match step with Some s => s | None => 1%Z end in
      if (step =? 0)%Z then raise (ValueError "slice step cannot be zero")
      else
        let* rs := take_rows (rows d)
                     (slice_indices start stop step (Z.of_nat (length (rows d)))) in
        ret (mkDataFrame (columns d) rs)
  | IList l =>
      let* rs := take_rows (rows d) l in
      ret (mkDataFrame (columns d) rs)
  end.

(** [df.iloc[i]] for an integer: one row. *)
Definition df_iloc_int (d : DataFrame) (i : Z) : result (list cell) :=
  match normalize_index (Z.of_nat (length (rows d))) i with
  | Some n =>
      match nth_error (rows d) n with
      | Some r => ret r
      | None => raise (IndexError "single positional indexer is out-of-bounds")
      end
  | None => raise (IndexError "single positional indexer is out-of-bounds")
  end.

(** ** The helpers imported from [utils] *)

(** Modelled from the spec: [update_keys_dict_with_kwargs] lives in [utils],
    which is not part of the sources at hand.  The field values reach the
    finder as one mapping: the [keys] dictionary, an absent one standing for
    the empty dictionary, updated with the keyword arguments. *)
Definition update_keys_dict_with_kwargs {V}
  (keys : option (dict V)) (keys_kwargs : dict V) : dict V :=
  dict_update (match keys with Some d => d | None => [] end) keys_kwargs.

(** Modelled from the spec: [product_dict] lives in [utils], which is not
    part of the sources at hand.  It enumerates the cartesian product of the
    list-valued fields, each combination being one concrete field
    assignment; the first field varies slowest. *)
Fixpoint product_dict (keys : dict (list string)) : list (dict string) :=
  match keys with
  | [] => [[]]
  | (k, vals) :: keys' =>
      flat_map (fun v => map (fun d => (k, v) :: d) (product_dict keys')) vals
  end.

(** ** [FinderBase] and [Finder] *)

(** A finder: the template, its set of placeholder names, the parser
    compiled from the template and the suffix put behind every match.
    [parser self pth] is [self.parser.parse(pth).named], the ordered mapping
    from placeholder name to the substring found, or [None] when the path
    does not have the shape of the template. *)
Record FinderBase : Type := mkFinderBase {
  pattern : string;
  keys : gset string;
  parser : string -> option (dict string);
  _suffix : string
}.

(** A [FileContainer] as a value: the frame it holds. *)
Record FileContainer : Type := mkFileContainer {
  df : DataFrame
}.

(** What [find] returns: the empty list, or a new container. *)
Inductive find_result : Type :=
| EmptyList
| Container (fc : FileContainer).

Definition newline : string := String (ascii_of_nat 10) "".

Definition no_match_header : string :=
  "Found no files matching criteria. Tried the following pattern(s):".

(** The message of the error for a search without a match: the header and
    one line per pattern that was tried. *)
Definition no_match_msg (all_patterns : list string) : string :=
  no_match_header
  +:+ String.concat "" (map (fun p => newline +:+ "- '" +:+ p +:+ "'") all_patterns).

Definition non_unique_msg : string :=
  "This query leads to non-unique metadata. Please adjust your query.".

(** [FileContainer.combine_by_key]: the key columns of every row, joined. *)
Definition combine_by_key (self : FileContainer)
  (keys : option (list string)) (sep : string) : result (list string) :=
  let* keys :=
    match keys with
    | Some ks => ret ks
    | None => index_drop "filename" (columns (df self))
    end in
  let* sub := df_getitems (df self) keys in
  ret (map (fun r => str_join sep (map cell_str r)) (rows sub)).

(** [isinstance(value, str)]: a bare string is wrapped in a list. *)
Definition wrap_strings (keys : dict kwvalue) : dict (list string) :=
  map (fun kv => (fst kv, match snd kv with
                          | VStr s => [s]
                          | VList l => l
                          end)) keys.

Section Finder.

(** [glob.glob]: the paths the file system has for a search pattern. *)
Variable glob : string -> list string.

(** [str.format] with keyword arguments. *)
Variable str_format : string -> dict string -> result string.

(** [parse.compile(pattern)], seen through [parse(path).named]. *)
Variable parse_compile : string -> string -> option (dict string).

(** The key extractor of [utils]: the placeholder names of a template. *)
Variable _find_keys : string -> gset string.

Definition FinderBase_init (pattern suffix : string) : FinderBase :=
  mkFinderBase pattern (_find_keys pattern) (parse_compile pattern) suffix.

Definition create_name (self : FinderBase)
  (keys : option (dict string)) (keys_kwargs : dict string) : result string :=
  let keys := update_keys_dict_with_kwargs keys keys_kwargs in
  str_format (pattern self) keys.

(** A wildcard for every key, then the given values on top. *)
Definition _create_condition_dict (self : FinderBase) (kwargs : dict string)
  : dict string :=
  let cond_dict := map (fun key => (key, "*")) (elements (keys self)) in
  dict_update cond_dict kwargs.

Definition _glob (pattern : string) : list string := glob pattern.

Definition no_named_msg : string := "'NoneType' object has no attribute 'named'".

(** The loop of [_parse_paths]: [out] grows by one row per path and [parsed]
    is what the parser gave for the path before. *)
Fixpoint _parse_loop (self : FinderBase) (paths : list string)
  (out : list (list cell)) (parsed : dict string)
  : result (list (list cell) * dict string) :=
  match paths with
  | [] => ret (out, parsed)
  | pth :: paths' =>
      match parser self pth with
      | None => raise (AttributeError no_named_msg)
      | Some named =>
          _parse_loop self paths'
            (out ++ [Str (pth +:+ _suffix self) :: map (fun kv => Str (snd kv)) named])
            named
      end
  end.

Definition _parse_paths (self : FinderBase) (paths : list string)
  : result (option DataFrame) :=
  match paths with
  | [] => ret None
  | _ :: _ =>
      let* '(out, parsed) := _parse_loop self paths [] [] in
      let keys := "filename" :: map fst parsed in
      let* frame := pd_DataFrame out keys in
      ret (Some frame)
  end.

(** One turn of the loop of [find]: the pattern of one combination, its
    matches in natural order, and their frame if there are any. *)
Definition find_step (self : FinderBase) (one_search_dict : dict string)
  : result (option DataFrame * string) :=
  let cond_dict := _create_condition_dict self one_search_dict in
  let* full_pattern := create_name self None cond_dict in
  let paths := sorted_natural (_glob full_pattern) in
  let* frame := _parse_paths self paths in
  ret (frame, full_pattern).

(** The loop of [find] over the combinations, with the two lists it fills. *)
Fixpoint find_loop (self : FinderBase) (combinations : list (dict string))
  (list_of_df : list DataFrame) (all_patterns : list string)
  : result (list DataFrame * list string) :=
  match combinations with
  | [] => ret (list_of_df, all_patterns)
  | one_search_dict :: combinations' =>
      let* '(frame, full_pattern) := find_step self one_search_dict in
      let list_of_df :=
        match frame with
        | Some d => list_of_df ++ [d]
        | None => list_of_df
        end in
      find_loop self combinations' list_of_df (all_patterns ++ [full_pattern])
  end.

Definition find (self : FinderBase) (keys : option (dict kwvalue))
  (_allow_empty : bool) (keys_kwargs : dict kwvalue) : result find_result :=
  let keys := update_keys_dict_with_kwargs None keys_kwargs in
  let keys := wrap_strings keys in
  let* '(list_of_df, all_patterns) := find_loop self (product_dict keys) [] [] in
  match list_of_df with
  | _ :: _ =>
      let frame := reset_index (pd_concat list_of_df) in
      let fc := mkFileContainer frame in
      let len_all := length (rows (df fc)) in
      let* combined := combine_by_key fc None "." in
      let len_unique := length (unique combined) in
      if negb (Nat.eqb len_all len_unique)
      then raise (ValueError non_unique_msg)
      else ret (Container fc)
  | [] =>
      if _allow_empty then ret EmptyList
      else raise (ValueError (no_match_msg all_patterns))
  end.

(** ** [FileFinder] *)

Definition ends_with (s suffix : string) : bool :=
  (Nat.leb (String.length suffix) (String.length s))
  && String.eqb
       (substring (String.length s - String.length suffix) (String.length suffix) s)
       suffix.

(** [os.path.join(a, *p)] of [posixpath]. *)
Definition os_path_join (a : string) (p : list string) : string :=
  fold_left (fun path b =>
               if String.prefix "/" b then b
               else if String.eqb path "" || ends_with path "/" then path +:+ b
               else path +:+ "/" +:+ b) p a.

Record FileFinder : Type := mkFileFinder {
  file : FinderBase;
  path : FinderBase;
  full : FinderBase
}.

Definition nonempty (s : string) : bool := negb (String.eqb s "").

Definition FileFinder_init (path_pattern file_pattern : string) : result FileFinder :=
  let file := FinderBase_init file_pattern "" in
  let path := FinderBase_init (os_path_join path_pattern [""]) "*" in
  match List.filter nonempty [path_pattern; file_pattern] with
  | [] => raise (TypeError "join() missing 1 required positional argument: 'a'")
  | a :: p =>
      let full := FinderBase_init (os_path_join a p) "" in
      ret (mkFileFinder file path full)
  end.

Definition find_paths (self : FileFinder) (keys : option (dict kwvalue))
  (_allow_empty : bool) (keys_kwargs : dict kwvalue) : result find_result :=
  find (path self) keys _allow_empty keys_kwargs.

Definition find_files (self : FileFinder) (keys : option (dict kwvalue))
  (_allow_empty : bool) (keys_kwargs : dict kwvalue) : result find_result :=
  find (full self) keys _allow_empty keys_kwargs.

End Finder.

(** ** [FileContainer] *)

(** A value of a query of [FileContainer.search]: a list of candidates,
    [None], or one value. *)
Inductive qvalue : Type :=
| QList (l : list string)
| QNone
| QVal (v : string).

(** The inner loop of [_get_subset]: one comparison per candidate, joined
    with [|]. *)
Fixpoint or_loop (d : DataFrame) (key : string) (val : list string)
  (condition_i : list bool) : result (list bool) :=
  match val with
  | [] => ret condition_i
  | val_i :: val' =>
      let* col := df_getitem d key in
      or_loop d key val' (map2 orb condition_i (series_eq col val_i))
  end.

(** The loop of [_get_subset] over the items of the query. *)
Fixpoint query_loop (d : DataFrame) (query : dict qvalue)
  (condition : list bool) : result (list bool) :=
  match query with
  | [] => ret condition
  | (key, val) :: query' =>
      match val with
      | QList l =>
          let* condition_i := or_loop d key l (repeat false (length (rows d))) in
          query_loop d query' (map2 andb condition condition_i)
      | QNone => query_loop d query' condition
      | QVal v =>
          let* col := df_getitem d key in
          query_loop d query' (map2 andb condition (series_eq col v))
      end
  end.

Definition _get_subset (self_df : DataFrame) (query : dict qvalue)
  : result DataFrame :=
  match query with
  | [] => ret (mkDataFrame (columns self_df) [])
  | _ :: _ =>
      let* condition := query_loop self_df query (repeat true (length (rows self_df))) in
      ret (df_loc self_df condition)
  end.

(** *** Objects *)

(** Containers and frames are objects: a container refers to its frame, and
    [copy.copy] makes a new container that refers to the same frame. *)
Definition loc : Type := positive.

Inductive object : Type :=
| OContainer (df : loc)
| OFrame (d : DataFrame).

Definition alloc (o : object) (h : gmap loc object) : loc * gmap loc object :=
  let l := fresh (dom h) in (l, <[l:=o]> h).

(** The frame a container refers to. *)
Definition frame_of (h : gmap loc object) (c : loc) : option DataFrame :=
  match h !! c with
  | Some (OContainer d) =>
      match h !! d with
      | Some (OFrame f) => Some f
      | _ => None
      end
  | _ => None
  end.

Definition no_df_msg : string := "object has no attribute 'df'".

(** [FileContainer.search]: a shallow copy of [self] whose [df] is then
    bound to the frame of the matching rows. *)
Definition search (self : loc) (query : dict qvalue) (h : gmap loc object)
  : result loc * gmap loc object :=
  match h !! self with
  | Some (OContainer d) =>
      let '(r, h1) := alloc (OContainer d) h in
      match frame_of h1 self with
      | Some f =>
          match _get_subset f query with
          | inr sub =>
              let '(n, h2) := alloc (OFrame sub) h1 in
              (ret r, <[r:=OContainer n]> h2)
          | inl e => (raise e, h1)
          end
      | None => (raise (AttributeError no_df_msg), h1)
      end
  | _ => (raise (AttributeError no_df_msg), h)
  end.

(** The key of [__getitem__]. *)
Inductive getitem_key : Type :=
| GInt (i : Z)
| GIndexer (k : indexer).

(** What [__getitem__] returns: the file name and the fields of one row, or
    a container. *)
Inductive getitem_result : Type :=
| Element (filename : cell) (fields : dict cell)
| SubContainer (c : loc).

Definition series_getitem (cols : list string) (r : list cell) (key : string)
  : result cell :=
  match index_of key cols with
  | Some i => ret (row_cell i r)
  | None => raise (KeyError key)
  end.

(** [element.drop(label).to_dict()]. *)
Definition series_drop_to_dict (cols : list string) (r : list cell) (label : string)
  : result (dict cell) :=
  if mem_string label cols
  then ret (List.filter (fun kv => negb (String.eqb (fst kv) label)) (combine cols r))
  else raise (KeyErrorMissing [label]).

Definition getitem (self : loc) (key : getitem_key) (h : gmap loc object)
  : result getitem_result * gmap loc object :=
  match key with
  | GInt i =>
      match frame_of h self with
      | Some f =>
          (let* element := df_iloc_int f i in
           let* filename := series_getitem (columns f) element "filename" in
           let* fields := series_drop_to_dict (columns f) element "filename" in
           ret (Element filename fields), h)
      | None => (raise (AttributeError no_df_msg), h)
      end
  | GIndexer k =>
      match h !! self with
      | Some (OContainer d) =>
          let '(r, h1) := alloc (OContainer d) h in
          match frame_of h1 self with
          | Some f =>
              match df_iloc f k with
              | inr sub =>
                  let '(n, h2) := alloc (OFrame sub) h1 in
                  (ret (SubContainer r), <[r:=OContainer n]> h2)
              | inl e => (raise e, h1)
              end
          | None => (raise (AttributeError no_df_msg), h1)
          end
      | _ => (raise (AttributeError no_df_msg), h)
      end
  end.

(** [FileContainer(df)]: a new frame object and a new container for it. *)
Definition new_container (d : DataFrame) (h : gmap loc object)
  : loc * gmap loc object :=
  let '(n, h1) := alloc (OFrame d) h in
  alloc (OContainer n) h1.

(** ** A small world to run the finder in *)

Module Fixture.

(** [str.format] on templates whose replacement fields are plain names:
    a field is replaced by the value of its name, [KeyError] when the
    mapping has none. *)
Fixpoint format_scan (d : dict string) (field : option string) (s : string)
  : result string :=
  match s with
  | EmptyString =>
      match field with
      | None => ret ""
      | Some _ => raise (ValueError "expected '}' before end of string")
      end
  | String c s' =>
      match field with
      | None =>
          if Ascii.eqb c "{" then format_scan d (Some "") s'
          else if Ascii.eqb c "}"
               then raise (ValueError "Single '}' encountered in format string")
               else let* r := format_scan d None s' in ret (String c r)
      | Some name =>
          if Ascii.eqb c "}" then
            match dict_get d name with
            | Some v => let* r := format_scan d None s' in ret (v +:+ r)
            | None => raise (KeyError name)
            end
          else format_scan d (Some (name +:+ String c "")) s'
      end
  end.

Definition str_format (template : string) (d : dict string) : result string :=
  format_scan d None template.

(** Matching of a path against a search pattern: [*] stands for any run of
    characters inside one path component. *)
Fixpoint wild_match (p s : string) : bool :=
  match p with
  | EmptyString => String.eqb s ""
  | String c p' =>
      if Ascii.eqb c "*" then
        (fix star (s : string) : bool :=
           wild_match p' s ||
           match s with
           | EmptyString => false
           | String a s' => negb (Ascii.eqb a "/") && star s'
           end) s
      else
        match s with
        | EmptyString => false
        | String a s' => Ascii.eqb c a && wild_match p' s'
        end
  end.

(** A file system is the list of its paths, in the order of its listing. *)
Definition glob (fs : list string) (pattern : string) : list string :=
  List.filter (wild_match pattern) fs.

Fixpoint split_at (sep : ascii) (s : string) : option (string * string) :=
  match s with
  | EmptyString => None
  | String c s' =>
      if Ascii.eqb c sep then Some ("", s')
      else match split_at sep s' with
           | Some (a, b) => Some (String c a, b)
           | None => None
           end
  end.

Definition strip_prefix (pre s : string) : option string :=
  if String.prefix pre s
  then Some (substring (String.length pre) (String.length s - String.length pre) s)
  else None.

Definition strip_suffix (suf s : string) : option string :=
  if ends_with s suf
  then Some (substring 0 (String.length s - String.length suf) s)
  else None.

Definition dir_template : string := "data/".
Definition file_template : string := "{var}_{year}.nc".
Definition full_template : string := "data/{var}_{year}.nc".

(** The parser of [{var}_{year}.nc] behind a literal prefix. *)
Definition parse_var_year (pre pth : string) : option (dict string) :=
  match strip_prefix pre pth with
  | Some rest =>
      match strip_suffix ".nc" rest with
      | Some stem =>
          match split_at "_" stem with
          | Some (v, y) =>
              if nonempty v && nonempty y then Some [("var", v); ("year", y)] else None
          | None => None
          end
      | None => None
      end
  | None => None
  end.

(** [parse.compile] on the three templates of the fixture. *)
Definition parse_compile (template : string) (pth : string) : option (dict string) :=
  if String.eqb template full_template then parse_var_year "data/" pth
  else if String.eqb template file_template then parse_var_year "" pth
  else if String.eqb template dir_template
       then (if String.eqb pth dir_template then Some [] else None)
       else None.

Definition _find_keys (template : string) : gset string :=
  if String.eqb template full_template || String.eqb template file_template
  then {[ "var"; "year" ]}
  else ∅.

(** The files of the end-to-end example of the spec, below [data/]. *)
Definition fs : list string :=
  ["data/"; "data/b_2000.nc"; "data/a_2001.nc"; "data/a_2000.nc"].

Definition full_finder : FinderBase := FinderBase_init parse_compile _find_keys full_template "".
Definition dir_finder : FinderBase := FinderBase_init parse_compile _find_keys dir_template "*".

(** [FileFinder("data", "{var}_{year}.nc")]. *)
Definition finder : FileFinder := mkFileFinder
  (FinderBase_init parse_compile _find_keys file_template "")
  dir_finder
  full_finder.

End Fixture.

(** ** Notions the statements are written in *)

(** [sub] occurs in [s]. *)
Definition contains (s sub : string) : Prop :=
  exists before after, s = before +:+ sub +:+ after.

(** The search patterns of a query: the template filled in for every
    combination of the query, wildcards standing for the fields left open. *)
Fixpoint format_all (str_format : string -> dict string -> result string)
  (self : FinderBase) (combinations : list (dict string)) : result (list string) :=
  match combinations with
  | [] => ret []
  | d :: combinations' =>
      let* p := create_name str_format self None (_create_condition_dict self d) in
      let* ps := format_all str_format self combinations' in
      ret (p :: ps)
  end.

Definition search_patterns (str_format : string -> dict string -> result string)
  (self : FinderBase) (keys_kwargs : dict kwvalue) : result (list string) :=
  format_all str_format self
    (product_dict (wrap_strings (update_keys_dict_with_kwargs None keys_kwargs))).

(** The row [_parse_paths] makes of a path: the path with the suffix of the
    finder, then the substring the parser found for every placeholder. *)
Definition parsed_row (self : FinderBase) (pth : string) (r : list cell) : Prop :=
  exists named,
    parser self pth = Some named /\
    r = Str (pth +:+ _suffix self) :: map (fun kv => Str (snd kv)) named.

(** The frames and the patterns the loop of [find] collects for a query. *)
Definition gather (glob : string -> list string)
  (str_format : string -> dict string -> result string)
  (self : FinderBase) (keys_kwargs : dict kwvalue)
  : result (list DataFrame * list string) :=
  find_loop glob str_format self
    (product_dict (wrap_strings (update_keys_dict_with_kwargs None keys_kwargs)))
    [] [].

(** A row of a table of [find]: as many cells as the finder has keys, and
    one more; under the columns of the table, the file name is a matched
    path with the suffix of the finder and every placeholder has the
    substring the parser found for it in that path. *)
Definition found_row (glob : string -> list string) (self : FinderBase)
  (cols : list string) (r : list cell) : Prop :=
  length r = S (size (keys self)) /\
  exists pth pat named,
    In pth (glob pat) /\
    parser self pth = Some named /\
    combine cols r
    = ("filename", Str (pth +:+ _suffix self))
        :: map (fun kv => (fst kv, Str (snd kv))) named.

(** The file names of a frame: the first cell of every row. *)
Definition filenames (d : DataFrame) : list cell := map (hd NaN) (rows d).




(** The cell of a row under a column name is the string [x]. *)
Definition cell_is (cols : list string) (r : list cell) (k x : string) : bool :=
  match index_of k cols with
  | Some i =>
      match row_cell i r with
      | Str s => String.eqb s x
      | _ => false
      end
  | None => false
  end.

(** A row satisfies one constraint: any of the candidates of a list, the
    value itself, and [None] asks for nothing. *)
Definition constraint_holds (cols : list string) (r : list cell)
  (k : string) (v : qvalue) : bool :=
  match v with
  | QList l => existsb (cell_is cols r k) l
  | QNone => true
  | QVal x => cell_is cols r k x
  end.

(** A row satisfies every constraint of a query. *)
Definition row_matches (cols : list string) (query : dict qvalue) (r : list cell)
  : bool :=
  forallb (fun kv => constraint_holds cols r (fst kv) (snd kv)) query.

(** A constraint that reads its column: a value, or a list with a
    candidate. *)
Definition reads_column (v : qvalue) : Prop :=
  match v with
  | QList (_ :: _) => True
  | QVal _ => True
  | _ => False
  end.



(** What [search] and [__getitem__] share: a shallow copy of [self], whose
    [df] is then bound to a frame computed from the frame of [self]. *)
Definition copy_and_rebind (self : loc) (compute : DataFrame -> result DataFrame)
  (h : gmap loc object) : result loc * gmap loc object :=
  match h !! self with
  | Some (OContainer d) =>
      let '(r, h1) := alloc (OContainer d) h in
      match frame_of h1 self with
      | Some f =>
          match compute f with
          | inr sub =>
              let '(n, h2) := alloc (OFrame sub) h1 in
              (ret r, <[r:=OContainer n]> h2)
          | inl e => (raise e, h1)
          end
      | None => (raise (AttributeError no_df_msg), h1)
      end
  | _ => (raise (AttributeError no_df_msg), h)
  end.

(** *** Row storage *)






Module Demo.

(** The table of the three files of the fixture, as an object. *)
Definition table : DataFrame :=
  mkDataFrame ["filename"; "var"; "year"]
    [[Str "data/a_2000.nc"; Str "a"; Str "2000"];
     [Str "data/a_2001.nc"; Str "a"; Str "2001"];
     [Str "data/b_2000.nc"; Str "b"; Str "2000"]].

Definition heap : gmap loc object :=
  snd (new_container table ∅).

Definition t : loc := fst (new_container table ∅).

End Demo.

(** ** The rest of [FileContainer] *)

(** What [__iter__] yields for one row, and what [__getitem__] returns for
    an integer: the cell under [filename], and the other cells by column. *)
Definition element_pair (cols : list string) (element : list cell)
  : result (cell * dict cell) :=
  let* filename := series_getitem cols element "filename" in
  let* fields := series_drop_to_dict cols element "filename" in
  ret (filename, fields).

Fixpoint iter_rows (cols : list string) (rs : list (list cell))
  : result (list (cell * dict cell)) :=
  match rs with
  | [] => ret []
  | element :: rs' =>
      let* item := element_pair cols element in
      let* items := iter_rows cols rs' in
      ret (item :: items)
  end.

(** [FileContainer.__iter__], run to its end: the pairs it yields, row by
    row.  A missing [filename] column raises at the first row, before
    anything is yielded. *)
Definition iter (self : loc) (h : gmap loc object) : result (list (cell * dict cell)) :=
  match frame_of h self with
  | Some f => iter_rows (columns f) (rows f)
  | None => raise (AttributeError no_df_msg)
  end.

(** [FileContainer.__len__]. *)
Definition len (self : loc) (h : gmap loc object) : result nat :=
  match frame_of h self with
  | Some f => ret (length (rows f))
  | None => raise (AttributeError no_df_msg)
  end.

(** ** More notions for statements *)

Definition reads_columnb (v : qvalue) : bool :=
  match v with
  | QList (_ :: _) => true
  | QVal _ => true
  | _ => false
  end.

(** The first field of a query, in the order of the query, whose constraint
    reads a column the table does not have. *)
Fixpoint first_unknown (cols : list string) (query : dict qvalue) : option string :=
  match query with
  | [] => None
  | (k, v) :: query' =>
      if reads_columnb v && negb (mem_string k cols) then Some k
      else first_unknown cols query'
  end.

(** A position [iloc] accepts for a sequence of [n] elements. *)
Definition in_range (n : nat) (i : Z) : Prop :=
  (- Z.of_nat n <= i < Z.of_nat n)%Z.

(** The element a position stands for: positions count from the end when
    negative. *)
Definition at_position {A} (l : list A) (i : Z) : option A :=
  nth_error l (Z.to_nat (i mod Z.of_nat (length l))).

(** The file names [find] lists for one search pattern: its matches in
    natural order, each with the suffix of the finder. *)
Definition matches_of (glob : string -> list string) (self : FinderBase)
  (pat : string) : list cell :=
  map (fun p => Str (p +:+ _suffix self)) (sorted_natural (glob pat)).

(** * Properties *)

(** ** The natural order *)

Lemma ascii_compare_refl (c : ascii) : Ascii.compare c c = Eq.
Proof. unfold Ascii.compare. apply N.compare_refl. Qed.

Lemma ascii_compare_lt_trans (a b c : ascii) :
  Ascii.compare a b = Lt -> Ascii.compare b c = Lt -> Ascii.compare a c = Lt.
Proof.
  unfold Ascii.compare. rewrite !N.compare_lt_iff. lia.
Qed.

Lemma string_compare_refl (s : string) : String.compare s s = Eq.
Proof.
  induction s as [|c s IH]; simpl; [reflexivity|].
  now rewrite ascii_compare_refl.
Qed.

Lemma string_compare_lt_trans (s t u : string) :
  String.compare s t = Lt -> String.compare t u = Lt -> String.compare s u = Lt.
Proof.
  revert t u. induction s as [|a s IH]; intros [|b t] [|c u]; simpl; try congruence.
  destruct (Ascii.compare a b) eqn:Hab; try discriminate;
    destruct (Ascii.compare b c) eqn:Hbc; try discriminate; intros H1 H2.
  - apply Ascii.compare_eq_iff in Hab, Hbc. subst.
    rewrite ascii_compare_refl. eauto.
  - apply Ascii.compare_eq_iff in Hab. subst. now rewrite Hbc.
  - apply Ascii.compare_eq_iff in Hbc. subst. now rewrite Hab.
  - now rewrite (ascii_compare_lt_trans _ _ _ Hab Hbc).
Qed.

Lemma key_compare_refl (a : natural_key) : key_compare a a = Eq.
Proof. destruct a; simpl; [apply string_compare_refl | apply N.compare_refl]. Qed.

Lemma key_compare_eq (a b : natural_key) : key_compare a b = Eq -> a = b.
Proof.
  destruct a, b; simpl; try discriminate; intros H.
  - f_equal. now apply String.compare_eq_iff.
  - f_equal. now apply N.compare_eq_iff.
Qed.

Lemma key_compare_antisym (a b : natural_key) :
  key_compare a b = CompOpp (key_compare b a).
Proof.
  destruct a, b; simpl; try reflexivity.
  - apply String.compare_antisym.
  - apply N.compare_antisym.
Qed.

Lemma key_compare_lt_trans (a b c : natural_key) :
  key_compare a b = Lt -> key_compare b c = Lt -> key_compare a c = Lt.
Proof.
  destruct a, b, c; simpl; try congruence.
  - apply string_compare_lt_trans.
  - rewrite !N.compare_lt_iff. lia.
Qed.

Lemma keys_compare_refl (k : list natural_key) : keys_compare k k = Eq.
Proof.
  induction k as [|a k IH]; simpl; [reflexivity|]. now rewrite key_compare_refl.
Qed.

Lemma keys_compare_eq (k1 k2 : list natural_key) :
  keys_compare k1 k2 = Eq -> k1 = k2.
Proof.
  revert k2. induction k1 as [|a k1 IH]; intros [|b k2]; simpl; try congruence.
  destruct (key_compare a b) eqn:Hab; try discriminate.
  intros H. apply key_compare_eq in Hab. subst. f_equal. now apply IH.
Qed.

Lemma keys_compare_antisym (k1 k2 : list natural_key) :
  keys_compare k1 k2 = CompOpp (keys_compare k2 k1).
Proof.
  revert k2. induction k1 as [|a k1 IH]; intros [|b k2]; simpl; try reflexivity.
  rewrite (key_compare_antisym a b).
  destruct (key_compare b a); simpl; auto.
Qed.

Lemma keys_compare_lt_trans (k1 k2 k3 : list natural_key) :
  keys_compare k1 k2 = Lt -> keys_compare k2 k3 = Lt -> keys_compare k1 k3 = Lt.
Proof.
  revert k2 k3.
  induction k1 as [|a k1 IH]; intros [|b k2] [|c k3]; simpl; try congruence.
  destruct (key_compare a b) eqn:Hab; try discriminate;
    destruct (key_compare b c) eqn:Hbc; try discriminate; intros H1 H2.
  - apply key_compare_eq in Hab, Hbc. subst. rewrite key_compare_refl. eauto.
  - apply key_compare_eq in Hab. subst. now rewrite Hbc.
  - apply key_compare_eq in Hbc. subst. now rewrite Hab.
  - now rewrite (key_compare_lt_trans _ _ _ Hab Hbc).
Qed.

(** On keys of the shape of a natural key, the total comparison is the one
    Python computes, which then never raises. *)
Lemma keys_compare_py_total_aux (n : nat) (k1 k2 : list natural_key) :
  length k1 <= n -> text_first k1 -> text_first k2 ->
  keys_compare_py k1 k2 = Some (keys_compare k1 k2).
Proof.
  revert k1 k2. induction n as [|n IH]; intros k1 k2 Hn H1 H2.
  - destruct k1; simpl in *; [contradiction | lia].
  - destruct k1 as [|[s|] k1]; simpl in H1; try contradiction.
    destruct k2 as [|[t|] k2]; simpl in H2; try contradiction.
    cbn [keys_compare_py keys_compare key_compare_py key_compare].
    destruct (String.compare s t); try reflexivity.
    destruct k1 as [|[|a] k1]; try contradiction;
      destruct k2 as [|[|b] k2]; try contradiction; try reflexivity.
    cbn [keys_compare_py keys_compare key_compare_py key_compare].
    destruct (N.compare a b); try reflexivity.
    apply IH; auto. simpl in Hn. lia.
Qed.

(** On keys of the shape of a natural key, the total comparison is the one
    Python computes, which then never raises. *)
Lemma keys_compare_py_total (k1 k2 : list natural_key) :
  text_first k1 -> text_first k2 ->
  keys_compare_py k1 k2 = Some (keys_compare k1 k2).
Proof. apply (keys_compare_py_total_aux (length k1)). lia. Qed.

Lemma scan_runs_shape (s : string) :
  (forall t, text_first (scan_runs (InText t) s)) /\
  (forall n t, text_first (KText t :: scan_runs (InNum n) s)).
Proof.
  induction s as [|c s [IHt IHn]]; split; intros; simpl; auto.
  - destruct (digit_of c); [apply IHn | apply IHt].
  - destruct (digit_of c).
    + apply (IHn _ t).
    + simpl. apply IHt.
Qed.

Lemma natural_keys_shape (p : string) : text_first (natural_keys p).
Proof. apply scan_runs_shape. Qed.

Lemma natural_le_trans (p q r : string) :
  natural_le p q -> natural_le q r -> natural_le p r.
Proof.
  unfold natural_le, natural_compare. intros Hpq Hqr.
  destruct (keys_compare (natural_keys p) (natural_keys q)) eqn:H1; try congruence.
  - apply keys_compare_eq in H1. now rewrite H1.
  - destruct (keys_compare (natural_keys q) (natural_keys r)) eqn:H2; try congruence.
    + apply keys_compare_eq in H2. rewrite <- H2, H1. discriminate.
    + rewrite (keys_compare_lt_trans _ _ _ H1 H2). discriminate.
Qed.

Lemma natural_ltb_false_le (y x : string) : natural_ltb y x = false -> natural_le x y.
Proof.
  unfold natural_ltb, natural_le, natural_compare.
  rewrite (keys_compare_antisym (natural_keys x)).
  destruct (keys_compare (natural_keys y) (natural_keys x)); simpl; congruence.
Qed.

Lemma natural_ltb_true_le (y x : string) : natural_ltb y x = true -> natural_le y x.
Proof.
  unfold natural_ltb, natural_le.
  destruct (natural_compare y x); congruence.
Qed.

Lemma sorted_insert_perm (x : string) (l : list string) :
  Permutation (sorted_insert x l) (x :: l).
Proof.
  induction l as [|y l IH]; simpl; [reflexivity|].
  destruct (natural_ltb y x); [|reflexivity].
  rewrite IH. apply perm_swap.
Qed.

Lemma sorted_insert_sorted (x : string) (l : list string) :
  StronglySorted natural_le l -> StronglySorted natural_le (sorted_insert x l).
Proof.
  induction 1 as [|y l Hs IH Hall]; simpl.
  - constructor; [constructor | constructor].
  - destruct (natural_ltb y x) eqn:Hlt.
    + constructor; [exact IH|].
      eapply Permutation_Forall; [symmetry; apply sorted_insert_perm|].
      constructor; [now apply natural_ltb_true_le | exact Hall].
    + apply natural_ltb_false_le in Hlt.
      constructor; [constructor; assumption|].
      constructor; [exact Hlt|].
      eapply Forall_impl; [exact Hall|].
      intros z Hz. eapply natural_le_trans; eauto.
Qed.

Lemma sorted_natural_perm (l : list string) : Permutation (sorted_natural l) l.
Proof.
  induction l as [|x l IH]; simpl; [reflexivity|].
  rewrite sorted_insert_perm. now constructor.
Qed.

Lemma sorted_natural_sorted (l : list string) :
  StronglySorted natural_le (sorted_natural l).
Proof.
  induction l as [|x l IH]; simpl; [constructor|].
  now apply sorted_insert_sorted.
Qed.

(** ** Parsing the matches of one pattern *)

Lemma bind_inr {A B} (m : result A) (k : A -> result B) (b : B) :
  bind m k = inr b -> exists a, m = inr a /\ k a = inr b.
Proof. destruct m as [e|a]; simpl; [discriminate | eauto]. Qed.

Lemma _parse_loop_rows (self : FinderBase) (paths : list string) :
  forall out parsed out' parsed',
    _parse_loop self paths out parsed = inr (out', parsed') ->
    exists new,
      out' = out ++ new /\
      Forall2 (parsed_row self) paths new /\
      (paths = [] -> parsed' = parsed) /\
      (paths <> [] -> exists pth, In pth paths /\ parser self pth = Some parsed').
Proof.
  induction paths as [|pth paths IH]; intros out parsed out' parsed' H; simpl in H.
  - injection H as <- <-. exists []. rewrite app_nil_r.
    repeat split; [constructor | congruence].
  - destruct (parser self pth) as [named|] eqn:Hp; [|discriminate].
    apply IH in H as (new & -> & Hnew & Hnil & Hcons).
    exists ((Str (pth +:+ _suffix self) :: map (fun kv => Str (snd kv)) named) :: new).
    rewrite <- app_assoc. repeat split.
    + constructor; [exists named; auto | exact Hnew].
    + discriminate.
    + intros _. destruct paths as [|q paths].
      * exists pth. split; [now left|]. now rewrite (Hnil eq_refl).
      * destruct Hcons as (p' & Hin & Hp'); [discriminate|].
        exists p'. split; [now right | exact Hp'].
Qed.

Lemma pd_DataFrame_inr (data : list (list cell)) (cols : list string) (d : DataFrame) :
  pd_DataFrame data cols = inr d ->
  columns d = cols /\
  rows d = map (pad_row (data_width data)) data /\
  (data <> [] -> data_width data = length cols).
Proof.
  unfold pd_DataFrame. destruct data as [|r data].
  - intros H. injection H as <-. repeat split. congruence.
  - destruct (Nat.eqb _ _) eqn:Hw; [|discriminate].
    intros H. injection H as <-. apply Nat.eqb_eq in Hw. repeat split. auto.
Qed.

Lemma hd_pad_row (w : nat) (r : list cell) :
  r <> [] -> hd NaN (pad_row w r) = hd NaN r.
Proof. destruct r; [congruence | reflexivity]. Qed.

Lemma _parse_paths_some (self : FinderBase) (paths : list string) (d : DataFrame) :
  _parse_paths self paths = inr (Some d) ->
  paths <> [] /\
  exists out parsed,
    Forall2 (parsed_row self) paths out /\
    (exists pth, In pth paths /\ parser self pth = Some parsed) /\
    columns d = "filename" :: map fst parsed /\
    rows d = map (pad_row (length (columns d))) out.
Proof.
  unfold _parse_paths. destruct paths as [|pth paths]; [discriminate|].
  intros H. split; [discriminate|].
  apply bind_inr in H as ([out parsed] & Hloop & H).
  apply bind_inr in H as (frame & Hframe & H). injection H as <-.
  apply _parse_loop_rows in Hloop as (new & -> & Hnew & _ & Hlast).
  apply pd_DataFrame_inr in Hframe as (Hc & Hr & Hw).
  exists new, parsed. simpl in *.
  split; [exact Hnew|]. split; [apply Hlast; discriminate|]. split; [exact Hc|].
  rewrite Hc, Hr. rewrite Hw; [reflexivity|].
  inversion Hnew; discriminate.
Qed.

Lemma parsed_rows_filenames (self : FinderBase) (w : nat) (paths : list string)
  (out : list (list cell)) :
  Forall2 (parsed_row self) paths out ->
  map (hd NaN) (map (pad_row w) out) = map (fun p => Str (p +:+ _suffix self)) paths.
Proof.
  induction 1 as [|pth r paths out (named & _ & ->) _ IH]; simpl; [reflexivity|].
  now rewrite IH.
Qed.

Lemma _parse_paths_filenames (self : FinderBase) (paths : list string) (d : DataFrame) :
  _parse_paths self paths = inr (Some d) ->
  filenames d = map (fun p => Str (p +:+ _suffix self)) paths.
Proof.
  intros H. apply _parse_paths_some in H as (_ & out & parsed & Hout & _ & _ & Hr).
  unfold filenames. rewrite Hr. now apply parsed_rows_filenames.
Qed.

Lemma _parse_paths_none (self : FinderBase) (paths : list string) :
  _parse_paths self paths = inr None -> paths = [].
Proof.
  unfold _parse_paths. destruct paths as [|pth paths]; [reflexivity|].
  intros H. apply bind_inr in H as ([out parsed] & _ & H).
  apply bind_inr in H as (frame & _ & H). discriminate.
Qed.

Lemma append_cons (c : ascii) (s t : string) : String c s +:+ t = String c (s +:+ t).
Proof. reflexivity. Qed.

Lemma append_nil_r (s : string) : s +:+ "" = s.
Proof.
  induction s as [|c s IH]; [reflexivity|]. now rewrite append_cons, IH.
Qed.

Lemma append_assoc (s t u : string) : (s +:+ t) +:+ u = s +:+ (t +:+ u).
Proof.
  induction s as [|c s IH]; [reflexivity|]. now rewrite !append_cons, IH.
Qed.

Lemma concat_empty_cons (x : string) (xs : list string) :
  String.concat "" (x :: xs) = x +:+ String.concat "" xs.
Proof.
  destruct xs; [|reflexivity].
  change (String.concat "" [x]) with x. change (String.concat "" []) with "".
  symmetry. apply append_nil_r.
Qed.

Lemma concat_empty_app (xs ys : list string) :
  String.concat "" (xs ++ ys) = String.concat "" xs +:+ String.concat "" ys.
Proof.
  induction xs as [|x xs IH]; [reflexivity|].
  rewrite <- app_comm_cons, !concat_empty_cons, IH. now rewrite append_assoc.
Qed.

(** The message for a search without a match has a line for every pattern
    in the list it is made of. *)
Lemma no_match_msg_lists (pats : list string) (p : string) :
  In p pats -> contains (no_match_msg pats) (newline +:+ "- '" +:+ p +:+ "'").
Proof.
  intros Hin. apply in_split in Hin as (l1 & l2 & ->).
  unfold contains, no_match_msg.
  exists (no_match_header
          +:+ String.concat "" (map (fun p => newline +:+ "- '" +:+ p +:+ "'") l1)),
         (String.concat "" (map (fun p => newline +:+ "- '" +:+ p +:+ "'") l2)).
  rewrite map_app, concat_empty_app. cbn [map]. rewrite concat_empty_cons.
  now rewrite !append_assoc.
Qed.

(** ** Distinct values and joined keys *)

Lemma mem_string_In (x : string) (l : list string) : mem_string x l = true <-> In x l.
Proof.
  unfold mem_string. rewrite existsb_exists. split.
  - intros (y & Hy & Heq). apply String.eqb_eq in Heq. now subst.
  - intros H. exists x. split; [exact H | apply String.eqb_refl].
Qed.

Lemma mem_string_not_In (x : string) (l : list string) :
  mem_string x l = false <-> ~ In x l.
Proof.
  rewrite <- mem_string_In. destruct (mem_string x l); split; congruence.
Qed.




Lemma index_of_In (k : string) (cols : list string) :
  In k cols -> exists i, index_of k cols = Some i.
Proof.
  induction cols as [|c cols IH]; simpl; [tauto|].
  intros H. destruct (String.eqb c k) eqn:Hc; [eauto|].
  apply String.eqb_neq in Hc. destruct H as [H|H]; [contradiction|].
  destruct (IH H) as [i ->]. eauto.
Qed.

Lemma index_of_not_In (k : string) (cols : list string) :
  ~ In k cols -> index_of k cols = None.
Proof.
  induction cols as [|c cols IH]; simpl; [reflexivity|].
  intros H. destruct (String.eqb c k) eqn:Hc.
  - apply String.eqb_eq in Hc. tauto.
  - rewrite IH; tauto.
Qed.






(** ** Queries, and frames over the same columns *)




Lemma pad_row_exact (r : list cell) : pad_row (length r) r = r.
Proof. unfold pad_row. now rewrite Nat.sub_diag, app_nil_r. Qed.

Lemma all_equal_Forall (cols : list string) (frames : list DataFrame) :
  Forall (fun f => columns f = cols) frames ->
  all_equal cols (map columns frames) = true.
Proof.
  induction 1 as [|f frames Hf _ IH]; simpl; [reflexivity|].
  rewrite IH, andb_true_r. now apply bool_decide_eq_true.
Qed.

(** Frames over the same columns are concatenated row after row. *)
Lemma pd_concat_same_columns (cols : list string) (d : DataFrame)
  (frames : list DataFrame) :
  Forall (fun f => columns f = cols) (d :: frames) ->
  pd_concat (d :: frames) = mkDataFrame cols (concat (map rows (d :: frames))).
Proof.
  intros H. unfold pd_concat.
  assert (Hd : columns d = cols) by now inversion H.
  rewrite Hd, (all_equal_Forall cols (d :: frames) H). reflexivity.
Qed.

Lemma combine_named (named : dict string) :
  combine (map fst named) (map (fun kv => Str (snd kv)) named)
  = map (fun kv => (fst kv, Str (snd kv))) named.
Proof. induction named as [|[k v] named IH]; simpl; [reflexivity | now rewrite IH]. Qed.

Section FinderFacts.

Variable glob : string -> list string.
Variable str_format : string -> dict string -> result string.

Lemma find_step_inr (self : FinderBase) (d : dict string)
  (frame : option DataFrame) (pat : string) :
  find_step glob str_format self d = inr (frame, pat) ->
  create_name str_format self None (_create_condition_dict self d) = inr pat /\
  _parse_paths self (sorted_natural (glob pat)) = inr frame.
Proof.
  unfold find_step, _glob. intros H.
  apply bind_inr in H as (p & Hp & H).
  apply bind_inr in H as (f & Hf & H).
  injection H as <- <-. auto.
Qed.

(** C7: for each search pattern of [find], the frame of its matches lists
    the matched paths in natural order: the paths are a rearrangement of what
    the file system gave, every path comes no later than the ones behind it
    (digit runs compared as numbers, other runs as text), and the file names
    of the frame follow that order.  So [f2.txt; f10.txt; f1.txt] becomes
    [f1.txt; f2.txt; f10.txt], and [file2] comes before [file10]. *)
Theorem find_sorts_matches_naturally (self : FinderBase) (d : dict string)
  (frame : DataFrame) (pat : string) :
  find_step glob str_format self d = inr (Some frame, pat) ->
  Permutation (sorted_natural (glob pat)) (glob pat) /\
  StronglySorted natural_le (sorted_natural (glob pat)) /\
  filenames frame
    = map (fun p => Str (p +:+ _suffix self)) (sorted_natural (glob pat)) /\
  sorted_natural ["f2.txt"; "f10.txt"; "f1.txt"] = ["f1.txt"; "f2.txt"; "f10.txt"] /\
  natural_compare "file2" "file10" = Lt /\
  natural_keys "file10" = [KText "file"; KNum 10; KText ""].
Proof.
  intros H. apply find_step_inr in H as [_ H].
  split; [apply sorted_natural_perm|].
  split; [apply sorted_natural_sorted|].
  split; [now apply _parse_paths_filenames|].
  repeat split; vm_compute; reflexivity.
Qed.

Lemma sorted_natural_nil_inv (l : list string) : l = [] -> sorted_natural l = [].
Proof. now intros ->. Qed.

(** When no pattern of the query has a match, the loop of [find] adds no
    frame and adds every pattern to the list of the patterns tried. *)
Lemma find_loop_no_match (self : FinderBase) (combinations : list (dict string)) :
  forall pats list_of_df all_patterns,
    format_all str_format self combinations = inr pats ->
    Forall (fun p => glob p = []) pats ->
    find_loop glob str_format self combinations list_of_df all_patterns
      = inr (list_of_df, all_patterns ++ pats).
Proof.
  induction combinations as [|d combinations IH];
    intros pats list_of_df all_patterns Hfmt Hnone; simpl in *.
  - injection Hfmt as <-. now rewrite app_nil_r.
  - apply bind_inr in Hfmt as (p & Hp & Hfmt).
    apply bind_inr in Hfmt as (ps & Hps & Hfmt). injection Hfmt as <-.
    inversion Hnone as [|? ? Hp0 Hrest]; subst.
    unfold find_step, _glob. rewrite Hp. simpl. rewrite Hp0. simpl.
    rewrite (IH ps list_of_df (all_patterns ++ [p]) Hps Hrest).
    now rewrite <- app_assoc.
Qed.

(** C1, as amended: when none of the search patterns of a query has a match,
    [find] returns the empty list [[]] if empty results are allowed, and
    otherwise raises the [ValueError] for a search without a match, whose
    message has one line for every search pattern of the query. *)
Theorem find_no_match (self : FinderBase) (keys : option (dict kwvalue))
  (_allow_empty : bool) (keys_kwargs : dict kwvalue) (pats : list string) :
  search_patterns str_format self keys_kwargs = inr pats ->
  Forall (fun p => glob p = []) pats ->
  find glob str_format self keys _allow_empty keys_kwargs
    = (if _allow_empty then inr EmptyList
       else inl (ValueError (no_match_msg pats))) /\
  forall p, In p pats ->
    contains (no_match_msg pats) (newline +:+ "- '" +:+ p +:+ "'").
Proof.
  intros Hfmt Hnone. split; [|apply no_match_msg_lists].
  unfold find. unfold search_patterns in Hfmt.
  rewrite (find_loop_no_match self _ pats [] [] Hfmt Hnone). reflexivity.
Qed.

(** Whatever holds of the frame of every turn holds of all frames the loop
    of [find] collects. *)
Lemma find_loop_frames (Q : DataFrame -> Prop) (self : FinderBase) :
  (forall d frame pat,
      find_step glob str_format self d = inr (Some frame, pat) -> Q frame) ->
  forall combinations list_of_df all_patterns frames pats,
    find_loop glob str_format self combinations list_of_df all_patterns
      = inr (frames, pats) ->
    Forall Q list_of_df -> Forall Q frames.
Proof.
  intros Hstep. induction combinations as [|d combinations IH];
    intros list_of_df all_patterns frames pats H Hacc; simpl in H.
  - now injection H as <- <-.
  - apply bind_inr in H as ([frame pat] & Hs & H).
    eapply IH; [exact H|].
    destruct frame as [frame|]; [|exact Hacc].
    apply Forall_app. split; [exact Hacc|].
    constructor; [eapply Hstep; eauto | constructor].
Qed.



(** C3: the dictionary given to [find] by position has no part in the
    search.  Whatever it holds, the result is the one for the keyword
    arguments alone, and so for [find_paths] and [find_files], which hand it
    on. *)
Theorem find_discards_keys_dict (self : FinderBase) (ff : FileFinder)
  (d : dict kwvalue) (_allow_empty : bool) (keys_kwargs : dict kwvalue) :
  find glob str_format self (Some d) _allow_empty keys_kwargs
    = find glob str_format self None _allow_empty keys_kwargs /\
  find_paths glob str_format ff (Some d) _allow_empty keys_kwargs
    = find_paths glob str_format ff None _allow_empty keys_kwargs /\
  find_files glob str_format ff (Some d) _allow_empty keys_kwargs
    = find_files glob str_format ff None _allow_empty keys_kwargs.
Proof. repeat split. Qed.


Lemma find_container_inv (self : FinderBase) (ks : option (dict kwvalue))
  (_allow_empty : bool) (keys_kwargs : dict kwvalue) (fc : FileContainer) :
  find glob str_format self ks _allow_empty keys_kwargs = inr (Container fc) ->
  exists d frames pats,
    gather glob str_format self keys_kwargs = inr (d :: frames, pats) /\
    fc = mkFileContainer (pd_concat (d :: frames)).
Proof.
  unfold find, gather. intros H.
  apply bind_inr in H as ([[|d frames] pats] & Hg & H).
  - destruct _allow_empty; discriminate.
  - exists d, frames, pats. split; [exact Hg|].
    apply bind_inr in H as (joined & _ & H).
    destruct (negb _); [discriminate|]. now injection H as <-.
Qed.

Lemma parsed_rows_paths (self : FinderBase) (paths : list string)
  (out : list (list cell)) :
  Forall2 (parsed_row self) paths out ->
  Forall (fun r => exists pth, In pth paths /\ parsed_row self pth r) out.
Proof.
  induction 1 as [|pth r paths out Hr _ IH]; constructor.
  - exists pth. split; [now left | exact Hr].
  - eapply Forall_impl; [exact IH|].
    intros r' (q & Hq & Hr'). exists q. split; [now right | exact Hr'].
Qed.

Lemma find_step_rows (self : FinderBase) (fields : list string)
  (d : dict string) (frame : DataFrame) (pat : string) :
  (forall pth named, parser self pth = Some named -> map fst named = fields) ->
  Permutation fields (elements (keys self)) ->
  find_step glob str_format self d = inr (Some frame, pat) ->
  columns frame = "filename" :: fields /\
  Forall (found_row glob self ("filename" :: fields)) (rows frame).
Proof.
  intros Hnames Hperm H. apply find_step_inr in H as [_ H].
  apply _parse_paths_some in H as (_ & out & parsed & Hout & (q & _ & Hq) & Hc & Hr).
  apply Hnames in Hq. rewrite Hq in Hc. split; [exact Hc|].
  rewrite Hr, Hc. apply parsed_rows_paths in Hout.
  apply Forall_map. eapply Forall_impl; [exact Hout|].
  intros r (pth & Hin & named & Hp & ->). cbn beta.
  pose proof (Hnames pth named Hp) as Hf.
  assert (Hlen : length (Str (pth +:+ _suffix self)
                          :: map (fun kv => Str (snd kv)) named)
                 = S (length fields)).
  { simpl. rewrite length_map, <- Hf. now rewrite length_map. }
  replace (length ("filename" :: fields)) with (S (length fields)) by reflexivity.
  rewrite <- Hlen, pad_row_exact. split.
  - rewrite Hlen. f_equal. now apply Permutation_length.
  - exists pth, pat, named. split; [|split; [exact Hp|]].
    + eapply Permutation_in; [apply sorted_natural_perm | exact Hin].
    + rewrite <- Hf. cbn [combine]. now rewrite combine_named.
Qed.

(** C10: let the parser of the finder name its fields in one order, the
    placeholder names of the template.  Then the table of a successful
    search has the column [filename] and one column per placeholder, and
    every row has one cell more than the finder has keys: the matched path
    with the suffix of the finder under [filename], and under every
    placeholder the substring the parser found for it in that path. *)
Theorem find_rows_have_all_keys (self : FinderBase) (ks : option (dict kwvalue))
  (_allow_empty : bool) (keys_kwargs : dict kwvalue) (fc : FileContainer)
  (fields : list string) :
  (forall pth named, parser self pth = Some named -> map fst named = fields) ->
  Permutation fields (elements (keys self)) ->
  find glob str_format self ks _allow_empty keys_kwargs = inr (Container fc) ->
  columns (df fc) = "filename" :: fields /\
  length (columns (df fc)) = S (size (keys self)) /\
  Forall (found_row glob self (columns (df fc))) (rows (df fc)).
Proof.
  intros Hnames Hperm H.
  apply find_container_inv in H as (d & frames & pats & Hg & ->).
  unfold gather in Hg.
  eapply (find_loop_frames
            (fun f => columns f = "filename" :: fields /\
                      Forall (found_row glob self ("filename" :: fields)) (rows f)))
    in Hg; [|intros; eapply find_step_rows; eauto | constructor].
  cbn [df].
  rewrite (pd_concat_same_columns ("filename" :: fields)).
  2:{ eapply Forall_impl; [exact Hg|]. now intros f [Hf _]. }
  cbn [columns rows]. split; [reflexivity|]. split.
  - simpl. f_equal. now apply Permutation_length.
  - apply Forall_concat. apply Forall_map.
    eapply Forall_impl; [exact Hg|]. now intros f [_ Hf].
Qed.


End FinderFacts.

Lemma find_sorts_matches_naturally_witness :
  exists frame,
    find_step (Fixture.glob Fixture.fs) Fixture.str_format Fixture.full_finder []
      = inr (Some frame, "data/*_*.nc") /\
    filenames frame
      = [Str "data/a_2000.nc"; Str "data/a_2001.nc"; Str "data/b_2000.nc"].
Proof.
  eexists. split; [vm_compute; reflexivity|].
  etransitivity.
  - refine (proj1 (proj2 (proj2 (find_sorts_matches_naturally
      (Fixture.glob Fixture.fs) Fixture.str_format Fixture.full_finder [] _
      "data/*_*.nc" _)))).
    vm_compute. reflexivity.
  - vm_compute. reflexivity.
Defined.

Lemma find_no_match_witness :
  find (Fixture.glob Fixture.fs) Fixture.str_format Fixture.full_finder None false
    [("var", VList ["c"; "d"]); ("year", VStr "2000")]
  = inl (ValueError (no_match_msg ["data/c_2000.nc"; "data/d_2000.nc"])).
Proof.
  refine (proj1 (find_no_match (Fixture.glob Fixture.fs) Fixture.str_format
    Fixture.full_finder None false _ ["data/c_2000.nc"; "data/d_2000.nc"] _ _)).
  - vm_compute. reflexivity.
  - repeat constructor.
Defined.

(** C1 as stated fails: with empty results allowed, a search without a match
    returns the empty list, which is not a container. *)
Lemma find_allow_empty_is_no_container :
  find (Fixture.glob Fixture.fs) Fixture.str_format Fixture.full_finder None true
    [("var", VStr "c")] = inr EmptyList /\
  ~ exists fc,
      find (Fixture.glob Fixture.fs) Fixture.str_format Fixture.full_finder None true
        [("var", VStr "c")] = inr (Container fc).
Proof.
  assert (H : find (Fixture.glob Fixture.fs) Fixture.str_format Fixture.full_finder
                None true [("var", VStr "c")] = inr EmptyList)
    by (vm_compute; reflexivity).
  split; [exact H|]. intros [fc Hfc]. rewrite H in Hfc. discriminate.
Qed.

(** ** Filtering a container *)

Lemma repeat_map {A B} (b : B) (l : list A) :
  repeat b (length l) = map (fun _ => b) l.
Proof. induction l as [|x l IH]; simpl; [reflexivity | now rewrite IH]. Qed.

Lemma map2_map {A B C D} (g : B -> C -> D) (f1 : A -> B) (f2 : A -> C) (l : list A) :
  map2 g (map f1 l) (map f2 l) = map (fun x => g (f1 x) (f2 x)) l.
Proof. induction l as [|x l IH]; simpl; [reflexivity | now rewrite IH]. Qed.

Lemma mask_select_map {A} (f : A -> bool) (l : list A) :
  mask_select (map f l) l = List.filter f l.
Proof.
  induction l as [|x l IH]; simpl; [reflexivity|].
  destruct (f x); now rewrite IH.
Qed.

(** The comparison of a column with a value tells, row by row, whether the
    cell under that column is the value. *)
Lemma series_eq_cell_is (d : DataFrame) (key : string) (col : list cell) (v : string) :
  df_getitem d key = inr col ->
  series_eq col v = map (fun r => cell_is (columns d) r key v) (rows d).
Proof.
  unfold df_getitem, cell_is.
  destruct (index_of key (columns d)) as [i|]; [|discriminate].
  intros H. injection H as <-. unfold series_eq. rewrite map_map. reflexivity.
Qed.

Lemma df_getitem_total (d : DataFrame) (key : string) :
  In key (columns d) -> exists col, df_getitem d key = inr col.
Proof.
  intros H. unfold df_getitem.
  destruct (index_of_In key (columns d) H) as [i ->]. eauto.
Qed.

Lemma or_loop_spec (d : DataFrame) (key : string) (val : list string) :
  forall f : list cell -> bool,
    (val <> [] -> In key (columns d)) ->
    or_loop d key val (map f (rows d))
    = inr (map (fun r => f r || existsb (cell_is (columns d) r key) val) (rows d)).
Proof.
  induction val as [|x val IH]; intros f Hkey; simpl.
  - f_equal. apply map_ext. intros r. now rewrite orb_false_r.
  - destruct (df_getitem_total d key) as [col Hcol]; [apply Hkey; discriminate|].
    rewrite Hcol. simpl. rewrite (series_eq_cell_is d key col x Hcol), map2_map.
    rewrite IH; [|intros _; apply Hkey; discriminate].
    f_equal. apply map_ext. intros r. now rewrite orb_assoc.
Qed.

Lemma query_loop_spec (d : DataFrame) (query : dict qvalue) :
  forall f : list cell -> bool,
    (forall k v, In (k, v) query -> reads_column v -> In k (columns d)) ->
    query_loop d query (map f (rows d))
    = inr (map (fun r => f r && row_matches (columns d) query r) (rows d)).
Proof.
  induction query as [|[k v] query IH]; intros f Hknown; simpl.
  - f_equal. apply map_ext. intros r. now rewrite andb_true_r.
  - assert (Hrest : forall k' v', In (k', v') query -> reads_column v' ->
                                  In k' (columns d))
      by (intros; eapply Hknown; [right|]; eauto).
    destruct v as [l| |x].
    + rewrite repeat_map, or_loop_spec.
      2:{ intros Hl. apply (Hknown k (QList l)); [now left|].
          destruct l; [congruence | exact I]. }
      simpl. rewrite map2_map, IH by exact Hrest.
      f_equal. apply map_ext. intros r. now rewrite andb_assoc.
    + rewrite IH by exact Hrest. reflexivity.
    + destruct (df_getitem_total d k) as [col Hcol];
        [apply (Hknown k (QVal x)); [now left | exact I]|].
      rewrite Hcol. simpl. rewrite (series_eq_cell_is d k col x Hcol), map2_map.
      rewrite IH by exact Hrest.
      f_equal. apply map_ext. intros r. now rewrite andb_assoc.
Qed.

(** The frame of the rows that satisfy every constraint of the query. *)
Lemma _get_subset_spec (d : DataFrame) (query : dict qvalue) :
  query <> [] ->
  (forall k v, In (k, v) query -> reads_column v -> In k (columns d)) ->
  _get_subset d query
  = inr (mkDataFrame (columns d) (List.filter (row_matches (columns d) query) (rows d))).
Proof.
  intros Hne Hknown. unfold _get_subset.
  destruct query as [|kv query]; [congruence|].
  rewrite repeat_map, query_loop_spec by exact Hknown. simpl.
  unfold df_loc. now rewrite mask_select_map.
Qed.

Lemma search_copy (self : loc) (query : dict qvalue) (h : gmap loc object) :
  search self query h = copy_and_rebind self (fun f => _get_subset f query) h.
Proof. reflexivity. Qed.


Lemma frame_of_Some (h : gmap loc object) (c : loc) (d : DataFrame) :
  frame_of h c = Some d ->
  exists dl, h !! c = Some (OContainer dl) /\ h !! dl = Some (OFrame d).
Proof.
  unfold frame_of. destruct (h !! c) as [[dl|]|] eqn:Hc; try discriminate.
  destruct (h !! dl) as [[|f]|] eqn:Hd; try discriminate.
  intros H. injection H as <-. eauto.
Qed.

Lemma fresh_lookup (h : gmap loc object) : h !! fresh (dom h) = None.
Proof. apply not_elem_of_dom, is_fresh. Qed.

(** The copy and the frame it is bound to are new objects; every object
    that was there stays as it was. *)
Lemma copy_and_rebind_spec (self : loc) (compute : DataFrame -> result DataFrame)
  (h : gmap loc object) (d : DataFrame) (res : result loc) (h' : gmap loc object) :
  frame_of h self = Some d ->
  copy_and_rebind self compute h = (res, h') ->
  (forall l o, h !! l = Some o -> h' !! l = Some o) /\
  match compute d with
  | inr sub =>
      exists r n,
        res = inr r /\ h !! r = None /\ h !! n = None /\ r <> n /\
        h' !! r = Some (OContainer n) /\ h' !! n = Some (OFrame sub)
  | inl e => res = inl e
  end.
Proof.
  intros Hf Hrun.
  destruct (frame_of_Some h self d Hf) as (dl & Hc & Hd).
  unfold copy_and_rebind, alloc in Hrun. rewrite Hc in Hrun.
  set (r := fresh (dom h)) in *.
  assert (Hr : h !! r = None) by apply fresh_lookup.
  assert (Hrs : r <> self) by congruence.
  assert (Hrd : r <> dl) by congruence.
  assert (Hf1 : frame_of (<[r:=OContainer dl]> h) self = Some d).
  { unfold frame_of. rewrite lookup_insert_ne, Hc by exact Hrs.
    now rewrite lookup_insert_ne, Hd by exact Hrd. }
  rewrite Hf1 in Hrun.
  destruct (compute d) as [e|sub].
  - injection Hrun as <- <-. split; [|reflexivity].
    intros l o Hl. rewrite lookup_insert_ne; [exact Hl | congruence].
  - set (h1 := <[r:=OContainer dl]> h) in *.
    set (n := fresh (dom h1)) in *.
    assert (Hn1 : h1 !! n = None) by apply fresh_lookup.
    assert (Hnr : r <> n).
    { intros Heq. rewrite <- Heq in Hn1. unfold h1 in Hn1.
      rewrite lookup_insert_eq in Hn1. discriminate. }
    assert (Hn : h !! n = None).
    { unfold h1 in Hn1. now rewrite lookup_insert_ne in Hn1 by exact Hnr. }
    injection Hrun as <- <-. split.
    + intros l o Hl. unfold h1.
      rewrite !lookup_insert_ne; [exact Hl | congruence..].
    + exists r, n. repeat split; auto.
      * apply lookup_insert_eq.
      * rewrite lookup_insert_ne by exact Hnr. apply lookup_insert_eq.
Qed.


Lemma frame_of_new (h' : gmap loc object) (r n : loc) (sub : DataFrame) :
  h' !! r = Some (OContainer n) -> h' !! n = Some (OFrame sub) ->
  frame_of h' r = Some sub.
Proof. intros Hr Hn. unfold frame_of. now rewrite Hr, Hn. Qed.

(** C4, as amended: let [t] be a table and [q] a query that is not empty and
    whose constraints that read a column (a value, or a list with a
    candidate) all name a column of [t].  Then [t.search] returns a table
    with the columns of [t] and exactly the rows of [t], in their order,
    that satisfy every constraint: any candidate of a list, the value
    itself, and nothing for [None]. *)
Theorem search_returns_matching_rows (h : gmap loc object) (t : loc)
  (d : DataFrame) (q : dict qvalue) :
  frame_of h t = Some d ->
  q <> [] ->
  (forall k v, In (k, v) q -> reads_column v -> In k (columns d)) ->
  exists r h',
    search t q h = (inr r, h') /\
    frame_of h' r
    = Some (mkDataFrame (columns d)
              (List.filter (row_matches (columns d) q) (rows d))).
Proof.
  intros Hf Hne Hknown.
  destruct (search t q h) as [res h'] eqn:Hs.
  rewrite search_copy in Hs.
  destruct (copy_and_rebind_spec _ _ _ _ _ _ Hf Hs) as [_ Hres].
  rewrite (_get_subset_spec d q Hne Hknown) in Hres.
  destruct Hres as (r & n & -> & _ & _ & _ & Hr & Hn).
  exists r, h'. split; [reflexivity|]. now apply (frame_of_new h' r n).
Qed.

(** C5: for every table [t], [t.search()] without a constraint returns a
    table with the columns of [t] and no row. *)
Theorem search_without_constraint_is_empty (h : gmap loc object) (t : loc)
  (d : DataFrame) :
  frame_of h t = Some d ->
  exists r h',
    search t [] h = (inr r, h') /\
    frame_of h' r = Some (mkDataFrame (columns d) []).
Proof.
  intros Hf.
  destruct (search t [] h) as [res h'] eqn:Hs.
  rewrite search_copy in Hs.
  destruct (copy_and_rebind_spec _ _ _ _ _ _ Hf Hs) as [_ Hres].
  cbn [_get_subset ret] in Hres.
  destruct Hres as (r & n & -> & _ & _ & _ & Hr & Hn).
  exists r, h'. split; [reflexivity|]. now apply (frame_of_new h' r n).
Qed.





(** ** The path finder *)

Lemma string_length_append (s t : string) :
  String.length (s +:+ t) = String.length s + String.length t.
Proof.
  induction s as [|c s IH]; [reflexivity|].
  rewrite append_cons. simpl. now rewrite IH.
Qed.

Lemma substring_all (t : string) : substring 0 (String.length t) t = t.
Proof. induction t as [|c t IH]; simpl; [reflexivity | now rewrite IH]. Qed.

Lemma substring_append (s t : string) :
  substring (String.length s) (String.length t) (s +:+ t) = t.
Proof.
  induction s as [|c s IH]; [apply substring_all|].
  rewrite append_cons. simpl. exact IH.
Qed.

Lemma ends_with_append (s t : string) : ends_with (s +:+ t) t = true.
Proof.
  unfold ends_with. rewrite string_length_append.
  replace (String.length s + String.length t - String.length t)
    with (String.length s) by lia.
  rewrite substring_append, String.eqb_refl, andb_true_r.
  apply Nat.leb_le. lia.
Qed.

(** A directory template that is not empty ends with a separator once it is
    joined with the empty string. *)
Lemma os_path_join_empty (a : string) :
  a <> "" -> ends_with (os_path_join a [""]) "/" = true.
Proof.
  intros Ha. unfold os_path_join. cbn [fold_left String.prefix].
  apply String.eqb_neq in Ha. rewrite Ha. cbn [orb].
  destruct (ends_with a "/") eqn:He.
  - now rewrite append_nil_r.
  - rewrite <- append_assoc, append_nil_r. apply ends_with_append.
Qed.

(** C8, as amended: the path finder of a [FileFinder] has the suffix [*],
    and its template ends with a path separator when the directory template
    is not empty.  Every search pattern of a directory search is the
    template with the values and wildcards filled in, without the suffix;
    the suffix is put behind every matched path in the [filename] column of
    the result. *)
Theorem path_finder_suffix
  (parse_compile : string -> string -> option (dict string))
  (_find_keys : string -> gset string)
  (path_pattern file_pattern : string) (ff : FileFinder) :
  FileFinder_init parse_compile _find_keys path_pattern file_pattern = inr ff ->
  (path_pattern <> "" -> ends_with (pattern (path ff)) "/" = true) /\
  _suffix (path ff) = "*" /\
  forall glob str_format d frame pat,
    find_step glob str_format (path ff) d = inr (frame, pat) ->
    str_format (pattern (path ff))
      (update_keys_dict_with_kwargs None (_create_condition_dict (path ff) d))
    = inr pat /\
    forall f, frame = Some f ->
      filenames f = map (fun p => Str (p +:+ "*")) (sorted_natural (glob pat)).
Proof.
  unfold FileFinder_init. intros H.
  destruct (List.filter nonempty [path_pattern; file_pattern]) as [|a p];
    [discriminate|].
  injection H as <-. cbn [path pattern _suffix FinderBase_init].
  split; [apply os_path_join_empty|]. split; [reflexivity|].
  intros glob str_format d frame pat Hstep.
  apply find_step_inr in Hstep as [Hname Hparse]. split; [exact Hname|].
  intros f ->. now apply _parse_paths_filenames in Hparse.
Qed.

(** ** The statements at work in the small world *)

Lemma fixture_finder :
  FileFinder_init Fixture.parse_compile Fixture._find_keys "data" "{var}_{year}.nc"
  = inr Fixture.finder.
Proof. reflexivity. Qed.

Lemma demo_frame : frame_of Demo.heap Demo.t = Some Demo.table.
Proof. vm_compute. reflexivity. Qed.


(** Two equal candidates make two equal rows, and the search fails. *)
Example find_equal_candidates :
  find (Fixture.glob Fixture.fs) Fixture.str_format Fixture.full_finder None false
    [("var", VList ["b"; "b"])]
  = inl (ValueError non_unique_msg).
Proof. vm_compute. reflexivity. Qed.


Lemma fixture_parser_names (pth : string) (named : dict string) :
  parser Fixture.full_finder pth = Some named -> map fst named = ["var"; "year"].
Proof.
  change (parser Fixture.full_finder pth) with (Fixture.parse_var_year "data/" pth).
  unfold Fixture.parse_var_year.
  destruct (Fixture.strip_prefix _ _); [|discriminate].
  destruct (Fixture.strip_suffix _ _); [|discriminate].
  destruct (Fixture.split_at _ _) as [[v y]|]; [|discriminate].
  destruct (_ && _); [|discriminate].
  intros H. now injection H as <-.
Qed.

Lemma fixture_keys : elements (keys Fixture.full_finder) = ["year"; "var"].
Proof. vm_compute. reflexivity. Qed.

Lemma find_rows_have_all_keys_witness :
  columns Demo.table = ["filename"; "var"; "year"] /\
  length (columns Demo.table) = S (size (keys Fixture.full_finder)) /\
  Forall (found_row (Fixture.glob Fixture.fs) Fixture.full_finder (columns Demo.table))
    (rows Demo.table).
Proof.
  apply (find_rows_have_all_keys (Fixture.glob Fixture.fs) Fixture.str_format
           Fixture.full_finder None false [] (mkFileContainer Demo.table)
           ["var"; "year"]).
  - exact fixture_parser_names.
  - rewrite fixture_keys. apply perm_swap.
  - vm_compute. reflexivity.
Defined.

Lemma search_returns_matching_rows_witness :
  exists r h',
    search Demo.t [("var", QList ["a"; "c"]); ("year", QVal "2001"); ("month", QNone)]
      Demo.heap = (inr r, h') /\
    frame_of h' r
    = Some (mkDataFrame ["filename"; "var"; "year"]
              [[Str "data/a_2001.nc"; Str "a"; Str "2001"]]).
Proof.
  apply (search_returns_matching_rows Demo.heap Demo.t Demo.table
           [("var", QList ["a"; "c"]); ("year", QVal "2001"); ("month", QNone)]).
  - exact demo_frame.
  - discriminate.
  - intros k v [H|[H|[H|[]]]] Hv; injection H as <- <-; simpl; tauto.
Defined.

(** C4 as stated fails: a value asked of a field that is no column of the
    table makes [search] raise [KeyError]; no table is returned. *)
Lemma search_unknown_column_raises :
  fst (search Demo.t [("colour", QVal "x")] Demo.heap) = inl (KeyError "colour") /\
  ~ exists r h', search Demo.t [("colour", QVal "x")] Demo.heap = (inr r, h').
Proof.
  assert (H : fst (search Demo.t [("colour", QVal "x")] Demo.heap)
              = inl (KeyError "colour")) by (vm_compute; reflexivity).
  split; [exact H|]. intros (r & h' & Hs). rewrite Hs in H. discriminate.
Qed.

Lemma search_without_constraint_is_empty_witness :
  exists r h',
    search Demo.t [] Demo.heap = (inr r, h') /\
    frame_of h' r = Some (mkDataFrame ["filename"; "var"; "year"] []).
Proof.
  apply (search_without_constraint_is_empty Demo.heap Demo.t Demo.table).
  exact demo_frame.
Defined.



Lemma path_finder_suffix_witness :
  ends_with (pattern (path Fixture.finder)) "/" = true /\
  filenames (mkDataFrame ["filename"] [[Str "data/*"]])
  = map (fun p => Str (p +:+ "*"))
      (sorted_natural (Fixture.glob Fixture.fs "data/")).
Proof.
  destruct (path_finder_suffix Fixture.parse_compile Fixture._find_keys
              "data" "{var}_{year}.nc" Fixture.finder fixture_finder)
    as (Hsep & _ & Hstep).
  split; [apply Hsep; discriminate|].
  refine (proj2 (Hstep (Fixture.glob Fixture.fs) Fixture.str_format []
                   (Some (mkDataFrame ["filename"] [[Str "data/*"]])) "data/" _)
            _ eq_refl).
  vm_compute. reflexivity.
Defined.

(** C8 as stated fails: the search pattern of the directory search of the
    fixture is [data/], without a wildcard behind it, as the error for a
    file system without that directory shows. *)
Lemma find_paths_pattern_has_no_suffix :
  search_patterns Fixture.str_format (path Fixture.finder) [] = inr ["data/"] /\
  find_paths (Fixture.glob []) Fixture.str_format Fixture.finder None false []
  = inl (ValueError (no_match_msg ["data/"])) /\
  ~ Forall (fun p => ends_with p "*" = true) ["data/"].
Proof.
  split; [vm_compute; reflexivity|]. split; [vm_compute; reflexivity|].
  intros H. inversion H as [|? ? Hp _]. vm_compute in Hp. discriminate.
Qed.

(** An empty directory template stays empty: no separator is added. *)
Example path_template_of_empty_directory :
  (let* ff := FileFinder_init Fixture.parse_compile Fixture._find_keys
                "" "{var}_{year}.nc" in
   ret (pattern (path ff), pattern (full ff)))
  = inr ("", "{var}_{year}.nc").
Proof. reflexivity. Qed.

(** * Further properties of the code *)

(** ** Queries on a table *)

Lemma reads_columnb_iff (v : qvalue) : reads_columnb v = true <-> reads_column v.
Proof. destruct v as [[|x l]| |x]; simpl; split; auto; discriminate. Qed.

Lemma or_loop_unknown (d : DataFrame) (key : string) (x : string) (val : list string)
  (c : list bool) :
  ~ In key (columns d) -> or_loop d key (x :: val) c = inl (KeyError key).
Proof.
  intros H. simpl. unfold df_getitem. now rewrite (index_of_not_In _ _ H).
Qed.

(** The loop of [_get_subset] stops with [KeyError] at the first constraint
    that reads a column the frame does not have, and otherwise marks the
    rows that satisfy every constraint. *)
Lemma query_loop_cases (d : DataFrame) (query : dict qvalue) :
  forall f : list cell -> bool,
    query_loop d query (map f (rows d))
    = match first_unknown (columns d) query with
      | Some k => inl (KeyError k)
      | None =>
          inr (map (fun r => f r && row_matches (columns d) query r) (rows d))
      end.
Proof.
  induction query as [|[k v] query IH]; intros f.
  - simpl. f_equal. apply map_ext. intros r. now rewrite andb_true_r.
  - cbn [first_unknown].
    destruct (mem_string k (columns d)) eqn:Hk.
    + rewrite andb_false_r. apply mem_string_In in Hk.
      destruct (first_unknown (columns d) query) as [k'|] eqn:Hu.
      * destruct v as [l| |x]; cbn [query_loop].
        -- rewrite repeat_map, or_loop_spec by auto. cbn [bind].
           rewrite map2_map, IH. reflexivity.
        -- now rewrite IH.
        -- destruct (df_getitem_total d k Hk) as [col Hcol]. rewrite Hcol. cbn [bind].
           rewrite (series_eq_cell_is d k col x Hcol), map2_map, IH. reflexivity.
      * destruct v as [l| |x]; cbn [query_loop].
        -- rewrite repeat_map, or_loop_spec by auto. cbn [bind].
           rewrite map2_map, IH. f_equal. apply map_ext. intros r.
           simpl. now rewrite andb_assoc.
        -- rewrite IH. reflexivity.
        -- destruct (df_getitem_total d k Hk) as [col Hcol]. rewrite Hcol. cbn [bind].
           rewrite (series_eq_cell_is d k col x Hcol), map2_map, IH.
           f_equal. apply map_ext. intros r. simpl. now rewrite andb_assoc.
    + rewrite andb_true_r. apply mem_string_not_In in Hk.
      destruct v as [[|x l]| |x]; cbn [reads_columnb query_loop].
      * rewrite repeat_map. cbn [or_loop bind ret]. rewrite map2_map, IH.
        destruct (first_unknown (columns d) query); [reflexivity|].
        f_equal. apply map_ext. intros r. simpl. now rewrite andb_false_r.
      * rewrite (or_loop_unknown d k x l _ Hk). reflexivity.
      * rewrite IH. reflexivity.
      * unfold df_getitem. rewrite (index_of_not_In _ _ Hk). reflexivity.
Qed.

Lemma _get_subset_cases (d : DataFrame) (query : dict qvalue) :
  query <> [] ->
  _get_subset d query
  = match first_unknown (columns d) query with
    | Some k => inl (KeyError k)
    | None =>
        inr (mkDataFrame (columns d)
               (List.filter (row_matches (columns d) query) (rows d)))
    end.
Proof.
  intros Hne. unfold _get_subset. destruct query as [|kv query]; [congruence|].
  rewrite repeat_map, query_loop_cases.
  destruct (first_unknown _ _); [reflexivity|]. cbn [bind ret].
  unfold df_loc. f_equal. f_equal.
  now rewrite <- mask_select_map.
Qed.

Lemma search_inr (h : gmap loc object) (t : loc) (d : DataFrame)
  (q : dict qvalue) (r : loc) (h' : gmap loc object) :
  frame_of h t = Some d ->
  search t q h = (inr r, h') ->
  exists sub, _get_subset d q = inr sub /\ frame_of h' r = Some sub.
Proof.
  intros Hf Hs. rewrite search_copy in Hs.
  destruct (copy_and_rebind_spec _ _ _ _ _ _ Hf Hs) as [_ Hres].
  destruct (_get_subset d q) as [e|sub]; [discriminate|].
  destruct Hres as (r' & n & Heq & _ & _ & _ & Hr & Hn). injection Heq as <-.
  exists sub. split; [reflexivity | now apply (frame_of_new h' r n)].
Qed.

Lemma search_total (h : gmap loc object) (t : loc) (d sub : DataFrame)
  (q : dict qvalue) :
  frame_of h t = Some d ->
  _get_subset d q = inr sub ->
  exists r h', search t q h = (inr r, h') /\ frame_of h' r = Some sub.
Proof.
  intros Hf Hsub. destruct (search t q h) as [res h'] eqn:Hs.
  rewrite search_copy in Hs.
  destruct (copy_and_rebind_spec _ _ _ _ _ _ Hf Hs) as [_ Hres].
  rewrite Hsub in Hres.
  destruct Hres as (r & n & -> & _ & _ & _ & Hr & Hn).
  exists r, h'. split; [reflexivity | now apply (frame_of_new h' r n)].
Qed.

Lemma _get_subset_inr (d sub : DataFrame) (q : dict qvalue) :
  _get_subset d q = inr sub ->
  first_unknown (columns d) q = None /\
  columns sub = columns d /\
  rows sub = match q with
             | [] => []
             | _ :: _ => List.filter (row_matches (columns d) q) (rows d)
             end.
Proof.
  destruct q as [|kv q].
  - intros H. injection H as <-. auto.
  - rewrite _get_subset_cases by discriminate.
    destruct (first_unknown _ _); [discriminate|].
    intros H. injection H as <-. auto.
Qed.

Lemma _get_subset_inr_ne (d sub : DataFrame) (q : dict qvalue) :
  q <> [] ->
  _get_subset d q = inr sub ->
  first_unknown (columns d) q = None /\
  sub = mkDataFrame (columns d) (List.filter (row_matches (columns d) q) (rows d)).
Proof.
  intros Hne. rewrite _get_subset_cases by exact Hne.
  destruct (first_unknown _ _); [discriminate|].
  intros H. now injection H as <-.
Qed.

Lemma filter_sublist {A} (f : A -> bool) (l : list A) : sublist (List.filter f l) l.
Proof.
  induction l as [|x l IH]; simpl; [constructor|].
  destruct (f x); now constructor.
Qed.

Lemma filter_andb {A} (f g : A -> bool) (l : list A) :
  List.filter (fun x => f x && g x) l = List.filter g (List.filter f l).
Proof.
  induction l as [|x l IH]; simpl; [reflexivity|].
  destruct (f x); simpl; [destruct (g x); now rewrite IH | exact IH].
Qed.

Lemma filter_idem {A} (f : A -> bool) (l : list A) :
  List.filter f (List.filter f l) = List.filter f l.
Proof.
  induction l as [|x l IH]; simpl; [reflexivity|].
  destruct (f x) eqn:Hx; simpl; [now rewrite Hx, IH | exact IH].
Qed.

Lemma first_unknown_app (cols : list string) (q1 q2 : dict qvalue) :
  first_unknown cols q1 = None -> first_unknown cols q2 = None ->
  first_unknown cols (q1 ++ q2) = None.
Proof.
  induction q1 as [|[k v] q1 IH]; simpl; [auto|].
  destruct (_ && _); [discriminate | exact IH].
Qed.

Lemma row_matches_app (cols : list string) (q1 q2 : dict qvalue) (r : list cell) :
  row_matches cols (q1 ++ q2) r = row_matches cols q1 r && row_matches cols q2 r.
Proof. unfold row_matches. apply forallb_app. Qed.

(** X1: [search] raises [KeyError] for the first field, in the order of the
    query, whose constraint reads a column the table does not have; a query
    without such a field returns a container.  [None] and the empty list
    read no column: they are no error on an unknown field. *)
Theorem search_key_error (h : gmap loc object) (t : loc) (d : DataFrame)
  (q : dict qvalue) :
  frame_of h t = Some d ->
  match first_unknown (columns d) q with
  | Some k => fst (search t q h) = inl (KeyError k)
  | None => exists r, fst (search t q h) = inr r
  end.
Proof.
  intros Hf. destruct (search t q h) as [res h'] eqn:Hs.
  rewrite search_copy in Hs.
  destruct (copy_and_rebind_spec _ _ _ _ _ _ Hf Hs) as [_ Hres].
  destruct q as [|kv q].
  - cbn in Hres. destruct Hres as (r & n & -> & _). simpl. eauto.
  - rewrite _get_subset_cases in Hres by discriminate.
    destruct (first_unknown _ _) as [k|].
    + now subst res.
    + destruct Hres as (r & n & -> & _). simpl. eauto.
Qed.

(** X2: whatever the query, a table [search] returns has the columns of the
    table searched, and its rows are rows of that table in their order: none
    is added, changed or moved, so it is never longer. *)
Theorem search_selects_rows (h : gmap loc object) (t : loc) (d : DataFrame)
  (q : dict qvalue) (r : loc) (h' : gmap loc object) :
  frame_of h t = Some d ->
  search t q h = (inr r, h') ->
  exists sub,
    frame_of h' r = Some sub /\
    columns sub = columns d /\
    sublist (rows sub) (rows d) /\
    len r h' = inr (length (rows sub)) /\
    length (rows sub) <= length (rows d).
Proof.
  intros Hf Hs. destruct (search_inr _ _ _ _ _ _ Hf Hs) as (sub & Hsub & Hr).
  apply _get_subset_inr in Hsub as (_ & Hc & Hrows).
  assert (Hsl : sublist (rows sub) (rows d)).
  { rewrite Hrows. destruct q; [apply sublist_nil_l | apply filter_sublist]. }
  exists sub. repeat split; auto.
  - unfold len. now rewrite Hr.
  - now apply sublist_length.
Qed.

(** X3: two searches in a row select what one search with both queries
    selects: searching [t] with [q1] and the result with [q2] gives the
    frame of searching [t] with the constraints of both, for queries that
    are not empty. *)
Theorem search_twice (h : gmap loc object) (t : loc) (d : DataFrame)
  (q1 q2 : dict qvalue) (r1 r2 : loc) (h1 h2 : gmap loc object) :
  frame_of h t = Some d ->
  q1 <> [] -> q2 <> [] ->
  search t q1 h = (inr r1, h1) ->
  search r1 q2 h1 = (inr r2, h2) ->
  exists r h',
    search t (q1 ++ q2) h = (inr r, h') /\
    frame_of h' r = frame_of h2 r2.
Proof.
  intros Hf Hq1 Hq2 Hs1 Hs2.
  destruct (search_inr _ _ _ _ _ _ Hf Hs1) as (d1 & Hd1 & Hf1).
  destruct (search_inr _ _ _ _ _ _ Hf1 Hs2) as (d2 & Hd2 & Hf2).
  apply _get_subset_inr_ne in Hd1 as (Hu1 & ->); [|exact Hq1].
  apply _get_subset_inr_ne in Hd2 as (Hu2 & ->); [|exact Hq2].
  cbn [columns rows] in *.
  assert (Hsub : _get_subset d (q1 ++ q2)
                 = inr (mkDataFrame (columns d)
                          (List.filter (row_matches (columns d) q2)
                             (List.filter (row_matches (columns d) q1) (rows d))))).
  { rewrite _get_subset_cases by (destruct q1; [congruence | discriminate]).
    rewrite (first_unknown_app _ _ _ Hu1 Hu2). f_equal. f_equal.
    rewrite <- filter_andb. apply filter_ext.
    intros r. apply row_matches_app. }
  destruct (search_total _ _ _ _ _ Hf Hsub) as (r & h' & Hs & Hfr).
  exists r, h'. split; [exact Hs | congruence].
Qed.

(** X4: searching the result of a search again with the same query changes
    nothing: the second result has the frame of the first. *)
Theorem search_again (h : gmap loc object) (t : loc) (d : DataFrame)
  (q : dict qvalue) (r1 r2 : loc) (h1 h2 : gmap loc object) :
  frame_of h t = Some d ->
  search t q h = (inr r1, h1) ->
  search r1 q h1 = (inr r2, h2) ->
  frame_of h2 r2 = frame_of h1 r1.
Proof.
  intros Hf Hs1 Hs2.
  destruct (search_inr _ _ _ _ _ _ Hf Hs1) as (d1 & Hd1 & Hf1).
  destruct (search_inr _ _ _ _ _ _ Hf1 Hs2) as (d2 & Hd2 & Hf2).
  rewrite Hf1, Hf2. f_equal.
  apply _get_subset_inr in Hd1 as (_ & Hc1 & Hr1).
  apply _get_subset_inr in Hd2 as (_ & Hc2 & Hr2).
  destruct d1 as [c1 rows1], d2 as [c2 rows2]. simpl in *. subst c1 c2. f_equal.
  subst rows2 rows1. destruct q; [reflexivity | apply filter_idem].
Qed.

(** ** Positions, slices and iteration *)

Lemma normalize_index_in_range (n : nat) (i : Z) :
  in_range n i ->
  normalize_index (Z.of_nat n) i = Some (Z.to_nat (i mod Z.of_nat n)) /\
  Z.to_nat (i mod Z.of_nat n) < n.
Proof.
  unfold in_range, normalize_index. intros Hi.
  assert (Hn : (0 < Z.of_nat n)%Z) by lia.
  replace ((- Z.of_nat n <=? i)%Z && (i <? Z.of_nat n)%Z) with true
    by (symmetry; apply andb_true_iff; split; [apply Z.leb_le | apply Z.ltb_lt]; lia).
  destruct (i <? 0)%Z eqn:Hneg.
  - apply Z.ltb_lt in Hneg.
    assert (Hm : (i mod Z.of_nat n = i + Z.of_nat n)%Z).
    { symmetry. apply (Z.mod_unique_pos _ _ (-1)%Z); lia. }
    rewrite Hm. split; [reflexivity | lia].
  - apply Z.ltb_ge in Hneg. rewrite Z.mod_small by lia. split; [reflexivity | lia].
Qed.

Lemma normalize_index_out (n : nat) (i : Z) :
  ~ in_range n i -> normalize_index (Z.of_nat n) i = None.
Proof.
  unfold in_range, normalize_index. intros Hi.
  destruct ((- Z.of_nat n <=? i)%Z && (i <? Z.of_nat n)%Z) eqn:Hb; [|reflexivity].
  apply andb_true_iff in Hb as [H1 H2].
  apply Z.leb_le in H1. apply Z.ltb_lt in H2. lia.
Qed.

Lemma at_position_in_range {A} (l : list A) (i : Z) :
  in_range (length l) i -> exists x, at_position l i = Some x.
Proof.
  intros Hi. destruct (normalize_index_in_range _ _ Hi) as [_ Hlt].
  unfold at_position.
  destruct (nth_error l _) as [x|] eqn:Hx; [eauto|].
  apply nth_error_None in Hx. lia.
Qed.

Lemma df_iloc_int_in_range (d : DataFrame) (i : Z) (r : list cell) :
  in_range (length (rows d)) i ->
  at_position (rows d) i = Some r ->
  df_iloc_int d i = inr r.
Proof.
  intros Hi Hr. unfold df_iloc_int.
  destruct (normalize_index_in_range _ _ Hi) as [-> _].
  unfold at_position in Hr. now rewrite Hr.
Qed.

Lemma getitem_int (h : gmap loc object) (t : loc) (d : DataFrame) (i : Z) :
  frame_of h t = Some d ->
  getitem t (GInt i) h
  = (let* element := df_iloc_int d i in
     let* item := element_pair (columns d) element in
     ret (Element (fst item) (snd item)), h).
Proof.
  intros Hf. unfold getitem. rewrite Hf. f_equal.
  destruct (df_iloc_int d i) as [e|element]; [reflexivity|]. cbn [bind].
  unfold element_pair.
  destruct (series_getitem _ _ _); [reflexivity|]. cbn [bind].
  destruct (series_drop_to_dict _ _ _); reflexivity.
Qed.

(** X5: [t[i]] for an integer is the row at position [i], counted from the
    end when [i] is negative, as the pair of its file name and its fields;
    a position outside the table raises [IndexError].  The table is left
    as it is. *)
Theorem getitem_integer (h : gmap loc object) (t : loc) (d : DataFrame) (i : Z) :
  frame_of h t = Some d ->
  (in_range (length (rows d)) i ->
   exists r,
     at_position (rows d) i = Some r /\
     getitem t (GInt i) h
     = (let* item := element_pair (columns d) r in
        ret (Element (fst item) (snd item)), h)) /\
  (~ in_range (length (rows d)) i ->
   getitem t (GInt i) h
   = (inl (IndexError "single positional indexer is out-of-bounds"), h)) /\
  (in_range (length (rows d)) i -> (i < 0)%Z ->
   getitem t (GInt i) h = getitem t (GInt (i + Z.of_nat (length (rows d)))) h).
Proof.
  intros Hf. split; [|split].
  - intros Hi. destruct (at_position_in_range (rows d) i Hi) as [r Hr].
    exists r. split; [exact Hr|].
    rewrite (getitem_int h t d i Hf), (df_iloc_int_in_range d i r Hi Hr). reflexivity.
  - intros Hi. rewrite (getitem_int h t d i Hf). unfold df_iloc_int.
    now rewrite (normalize_index_out _ _ Hi).
  - intros Hi Hneg. rewrite !(getitem_int h t d _ Hf). f_equal.
    unfold df_iloc_int, normalize_index, in_range in *.
    replace ((- Z.of_nat (length (rows d)) <=? i)%Z
             && (i <? Z.of_nat (length (rows d)))%Z) with true
      by (symmetry; apply andb_true_iff; split;
          [apply Z.leb_le | apply Z.ltb_lt]; lia).
    replace ((- Z.of_nat (length (rows d)) <=? i + Z.of_nat (length (rows d)))%Z
             && (i + Z.of_nat (length (rows d)) <? Z.of_nat (length (rows d)))%Z)
      with true
      by (symmetry; apply andb_true_iff; split;
          [apply Z.leb_le | apply Z.ltb_lt]; lia).
    replace (i <? 0)%Z with true by (symmetry; apply Z.ltb_lt; lia).
    replace (i + Z.of_nat (length (rows d)) <? 0)%Z with false
      by (symmetry; apply Z.ltb_ge; lia).
    reflexivity.
Qed.

Lemma iter_rows_inr (cols : list string) (rs : list (list cell))
  (items : list (cell * dict cell)) :
  iter_rows cols rs = inr items ->
  Forall2 (fun r item => element_pair cols r = inr item) rs items.
Proof.
  revert items. induction rs as [|r rs IH]; intros items H; simpl in H.
  - injection H as <-. constructor.
  - apply bind_inr in H as (item & Hitem & H).
    apply bind_inr in H as (items' & Hitems & H). injection H as <-.
    constructor; [exact Hitem | now apply IH].
Qed.

(** X6: iterating over a table and indexing it by position agree: the
    iteration yields as many pairs as the table has rows, and the pair at
    place [k] is what [t[k]] returns. *)
Theorem iter_agrees_with_getitem (h : gmap loc object) (t : loc) (d : DataFrame)
  (items : list (cell * dict cell)) :
  frame_of h t = Some d ->
  iter t h = inr items ->
  len t h = inr (length items) /\
  forall k item,
    nth_error items k = Some item ->
    getitem t (GInt (Z.of_nat k)) h = (inr (Element (fst item) (snd item)), h).
Proof.
  intros Hf Hit. unfold iter in Hit. rewrite Hf in Hit.
  apply iter_rows_inr in Hit.
  assert (Hlen : length (rows d) = length items) by (eapply Forall2_length; eauto).
  split; [unfold len; now rewrite Hf, Hlen|].
  intros k item Hk.
  assert (Hlt : k < length (rows d)).
  { rewrite Hlen. apply nth_error_Some. congruence. }
  destruct (nth_error (rows d) k) as [r|] eqn:Hr;
    [|apply nth_error_None in Hr; lia].
  assert (Hitem : element_pair (columns d) r = inr item).
  { clear Hlen Hlt. revert k Hk Hr.
    induction Hit as [|r0 it0 rs its H0 _ IH]; intros [|k] Hk Hr; simpl in *;
      try discriminate.
    - congruence.
    - eapply IH; eauto. }
  rewrite (getitem_int h t d _ Hf).
  assert (Hi : in_range (length (rows d)) (Z.of_nat k)) by (unfold in_range; lia).
  rewrite (df_iloc_int_in_range d _ r Hi).
  - cbn [bind]. now rewrite Hitem.
  - unfold at_position. rewrite Z.mod_small by lia. now rewrite Nat2Z.id.
Qed.

Lemma element_pair_total (cols : list string) (r : list cell) :
  In "filename" cols -> exists item, element_pair cols r = inr item.
Proof.
  intros H. unfold element_pair, series_getitem, series_drop_to_dict.
  destruct (index_of_In _ _ H) as [i ->]. cbn [bind].
  apply mem_string_In in H. rewrite H. cbn [bind ret]. eauto.
Qed.

(** X7: a table with a [filename] column can always be iterated; without
    that column the iteration raises [KeyError] at the first row, and yields
    nothing when there is no row. *)
Theorem iter_needs_filename (h : gmap loc object) (t : loc) (d : DataFrame) :
  frame_of h t = Some d ->
  (In "filename" (columns d) -> exists items, iter t h = inr items) /\
  (~ In "filename" (columns d) -> rows d <> [] ->
   iter t h = inl (KeyError "filename")) /\
  (rows d = [] -> iter t h = inr []).
Proof.
  intros Hf. unfold iter. rewrite Hf. split; [|split].
  - intros Hin. induction (rows d) as [|r rs [items IH]]; simpl; [eauto|].
    destruct (element_pair_total (columns d) r Hin) as [item ->].
    rewrite IH. simpl. eauto.
  - intros Hin Hne. destruct (rows d) as [|r rs]; [congruence|].
    simpl. unfold element_pair, series_getitem.
    now rewrite (index_of_not_In _ _ Hin).
  - now intros ->.
Qed.

Lemma pos_step_bound (a b step k : Z) :
  (0 < step -> a < b -> 0 <= k < (b - a + step - 1) / step -> a + k * step < b)%Z.
Proof.
  intros Hs Hab [Hk0 Hk].
  pose proof (Z.mul_div_le (b - a + step - 1) step Hs). nia.
Qed.

Lemma neg_step_bound (a b step k : Z) :
  (step < 0 -> b < a -> 0 <= k < (a - b - step - 1) / (- step) ->
   b < a + k * step)%Z.
Proof.
  intros Hs Hab [Hk0 Hk].
  assert (Hs' : (0 < - step)%Z) by lia.
  pose proof (Z.mul_div_le (a - b - step - 1) (- step) Hs'). nia.
Qed.

(** Every position of a slice lies inside the sequence, whatever the bounds
    of the slice. *)
Lemma slice_indices_in_range (start stop : option Z) (step : Z) (n : nat) :
  step <> 0%Z ->
  Forall (fun i => (0 <= i < Z.of_nat n)%Z) (slice_indices start stop step (Z.of_nat n)).
Proof.
  intros Hstep. unfold slice_indices.
  set (len := Z.of_nat n). assert (Hlen : (0 <= len)%Z) by (unfold len; lia).
  destruct (0 <? step)%Z eqn:Hpos.
  - apply Z.ltb_lt in Hpos.
    set (a := match start with
              | Some v => Z.max 0 (Z.min len (if (v <? 0)%Z then (v + len)%Z else v))
              | None => 0%Z
              end).
    set (b := match stop with
              | Some v => Z.max 0 (Z.min len (if (v <? 0)%Z then (v + len)%Z else v))
              | None => len
              end).
    assert (Ha : (0 <= a)%Z) by (unfold a; destruct start; lia).
    assert (Hb : (b <= len)%Z) by (unfold b; destruct stop; lia).
    apply Forall_map, Forall_forall. intros k Hk%list_elem_of_In%in_seq. cbn beta.
    destruct (a <? b)%Z eqn:Hab; [|simpl in Hk; lia].
    apply Z.ltb_lt in Hab.
    assert (Hq : (0 <= (b - a + step - 1) / step)%Z)
      by (apply Z.div_pos; lia).
    pose proof (pos_step_bound a b step (Z.of_nat k) Hpos Hab). nia.
  - apply Z.ltb_ge in Hpos. assert (Hneg : (step < 0)%Z) by lia.
    set (a := match start with
              | Some v => Z.max (-1) (Z.min (len - 1)
                                        (if (v <? 0)%Z then (v + len)%Z else v))
              | None => (len - 1)%Z
              end).
    set (b := match stop with
              | Some v => Z.max (-1) (Z.min (len - 1)
                                        (if (v <? 0)%Z then (v + len)%Z else v))
              | None => (-1)%Z
              end).
    assert (Ha : (a <= len - 1)%Z) by (unfold a; destruct start; lia).
    assert (Hb : (-1 <= b)%Z) by (unfold b; destruct stop; lia).
    apply Forall_map, Forall_forall. intros k Hk%list_elem_of_In%in_seq. cbn beta.
    destruct (b <? a)%Z eqn:Hab; [|simpl in Hk; lia].
    apply Z.ltb_lt in Hab.
    assert (Hq : (0 <= (a - b - step - 1) / (- step))%Z)
      by (apply Z.div_pos; lia).
    pose proof (neg_step_bound a b step (Z.of_nat k) Hneg Hab). nia.
Qed.

Lemma take_rows_in_range {A} (l : list A) (idx : list Z) :
  Forall (in_range (length l)) idx ->
  exists xs,
    take_rows l idx = inr xs /\
    Forall2 (fun i x => at_position l i = Some x) idx xs.
Proof.
  induction 1 as [|i idx Hi _ (xs & IH & Hxs)]; simpl.
  - exists []. split; [reflexivity | constructor].
  - destruct (normalize_index_in_range _ _ Hi) as [-> _].
    destruct (at_position_in_range l i Hi) as [x Hx].
    unfold at_position in Hx. rewrite Hx, IH. cbn [bind ret].
    exists (x :: xs). split; [reflexivity | now constructor].
Qed.

Lemma take_rows_out {A} (l : list A) (idx : list Z) :
  Exists (fun i => ~ in_range (length l) i) idx ->
  take_rows l idx = inl (IndexError "positional indexers are out-of-bounds").
Proof.
  induction idx as [|i idx IH]; intros H; [inversion H|]. simpl.
  inversion H as [? ? Hi|? ? Hrest]; subst.
  - now rewrite (normalize_index_out _ _ Hi).
  - destruct (normalize_index _ i) as [k|]; [|reflexivity].
    destruct (nth_error l k); [|reflexivity].
    now rewrite (IH Hrest).
Qed.

Lemma at_position_In {A} (l : list A) (i : Z) (x : A) :
  at_position l i = Some x -> In x l.
Proof. unfold at_position. apply nth_error_In. Qed.

Lemma getitem_indexer (h : gmap loc object) (t : loc) (k : indexer) :
  getitem t (GIndexer k) h
  = (let* c := fst (copy_and_rebind t (fun f => df_iloc f k) h) in
     ret (SubContainer c),
     snd (copy_and_rebind t (fun f => df_iloc f k) h)).
Proof.
  unfold getitem, copy_and_rebind.
  destruct (h !! t) as [[d|]|]; try reflexivity.
  destruct (alloc (OContainer d) h) as [r h1].
  destruct (frame_of h1 t) as [f|]; [|reflexivity].
  destruct (df_iloc f k); [reflexivity|].
  now destruct (alloc _ h1).
Qed.

Lemma getitem_indexer_total (h : gmap loc object) (t : loc) (d sub : DataFrame)
  (k : indexer) :
  frame_of h t = Some d ->
  df_iloc d k = inr sub ->
  exists r h',
    getitem t (GIndexer k) h = (inr (SubContainer r), h') /\
    frame_of h' r = Some sub.
Proof.
  intros Hf Hsub. rewrite getitem_indexer.
  destruct (copy_and_rebind t (fun f => df_iloc f k) h) as [res h'] eqn:Hc.
  destruct (copy_and_rebind_spec _ _ _ _ _ _ Hf Hc) as [_ Hres].
  rewrite Hsub in Hres.
  destruct Hres as (r & n & -> & _ & _ & _ & Hr & Hn).
  exists r, h'. split; [reflexivity | now apply (frame_of_new h' r n)].
Qed.

Lemma getitem_indexer_error (h : gmap loc object) (t : loc) (d : DataFrame)
  (k : indexer) (e : exn) :
  frame_of h t = Some d ->
  df_iloc d k = inl e ->
  fst (getitem t (GIndexer k) h) = inl e.
Proof.
  intros Hf Hsub. rewrite getitem_indexer.
  destruct (copy_and_rebind t (fun f => df_iloc f k) h) as [res h'] eqn:Hc.
  destruct (copy_and_rebind_spec _ _ _ _ _ _ Hf Hc) as [_ Hres].
  rewrite Hsub in Hres. now subst res.
Qed.

(** X8: indexing a table by a slice never raises for bounds: whatever the
    start and the stop, a slice with a step other than zero returns a new
    container with the columns of the table, whose rows are rows of the
    table.  A step of zero raises [ValueError]. *)
Theorem getitem_slice (h : gmap loc object) (t : loc) (d : DataFrame)
  (start stop step : option Z) :
  frame_of h t = Some d ->
  (step <> Some 0%Z ->
   exists r h' sub,
     getitem t (GIndexer (ISlice start stop step)) h = (inr (SubContainer r), h') /\
     frame_of h' r = Some sub /\
     columns sub = columns d /\
     (forall x, In x (rows sub) -> In x (rows d))) /\
  (step = Some 0%Z ->
   fst (getitem t (GIndexer (ISlice start stop step)) h)
   = inl (ValueError "slice step cannot be zero")).
Proof.
  intros Hf. split.
  - intros Hstep.
    set (s := match step with Some s => s | None => 1%Z end).
    assert (Hs : s <> 0%Z) by (unfold s; destruct step; congruence).
    destruct (take_rows_in_range (rows d)
                (slice_indices start stop s (Z.of_nat (length (rows d)))))
      as (xs & Hxs & Hpos).
    { eapply Forall_impl; [apply slice_indices_in_range; exact Hs|].
      intros i Hi. unfold in_range. cbn beta in Hi. lia. }
    assert (Hsub : df_iloc d (ISlice start stop step)
                   = inr (mkDataFrame (columns d) xs)).
    { unfold df_iloc. fold s. apply Z.eqb_neq in Hs. rewrite Hs, Hxs. reflexivity. }
    destruct (getitem_indexer_total h t d _ _ Hf Hsub) as (r & h' & Hg & Hr).
    exists r, h', (mkDataFrame (columns d) xs).
    split; [exact Hg|]. split; [exact Hr|]. split; [reflexivity|].
    cbn [rows]. intros x Hx. clear Hxs Hsub Hg Hr.
    induction Hpos as [|i y idx ys Hy _ IH]; [inversion Hx|].
    destruct Hx as [<-|Hx]; [eapply at_position_In; eauto | auto].
  - intros ->. eapply getitem_indexer_error; [exact Hf | reflexivity].
Qed.

(** X9: indexing a table by a list of positions returns the rows at these
    positions, one per position and in the order of the list, positions
    counted from the end when negative; one position outside the table
    makes the whole call raise [IndexError]. *)
Theorem getitem_list (h : gmap loc object) (t : loc) (d : DataFrame)
  (l : list Z) :
  frame_of h t = Some d ->
  (Forall (in_range (length (rows d))) l ->
   exists r h' sub,
     getitem t (GIndexer (IList l)) h = (inr (SubContainer r), h') /\
     frame_of h' r = Some sub /\
     columns sub = columns d /\
     Forall2 (fun i x => at_position (rows d) i = Some x) l (rows sub)) /\
  (Exists (fun i => ~ in_range (length (rows d)) i) l ->
   fst (getitem t (GIndexer (IList l)) h)
   = inl (IndexError "positional indexers are out-of-bounds")).
Proof.
  intros Hf. split.
  - intros Hl. destruct (take_rows_in_range (rows d) l Hl) as (xs & Hxs & Hpos).
    assert (Hsub : df_iloc d (IList l) = inr (mkDataFrame (columns d) xs))
      by (unfold df_iloc; now rewrite Hxs).
    destruct (getitem_indexer_total h t d _ _ Hf Hsub) as (r & h' & Hg & Hr).
    exists r, h', (mkDataFrame (columns d) xs). auto.
  - intros Hl. eapply getitem_indexer_error; [exact Hf|].
    unfold df_iloc. now rewrite (take_rows_out _ _ Hl).
Qed.

Lemma slice_indices_unit (start stop : option Z) (a b n : nat) :
  (start = None /\ a = 0 \/ start = Some (Z.of_nat a)) ->
  (stop = None /\ b = n \/ stop = Some (Z.of_nat b)) ->
  a <= b <= n ->
  slice_indices start stop 1 (Z.of_nat n)
  = map (fun k => (Z.of_nat a + Z.of_nat k * 1)%Z) (seq 0 (b - a)).
Proof.
  intros Hstart Hstop Hab. unfold slice_indices. cbn [Z.ltb Z.compare].
  assert (Ha : match start with
               | Some v => Z.max 0 (Z.min (Z.of_nat n)
                                      (if (v <? 0)%Z then (v + Z.of_nat n)%Z else v))
               | None => 0%Z
               end = Z.of_nat a).
  { destruct Hstart as [[-> ->]| ->]; [reflexivity|].
    replace (Z.of_nat a <? 0)%Z with false by (symmetry; apply Z.ltb_ge; lia). lia. }
  assert (Hb : match stop with
               | Some v => Z.max 0 (Z.min (Z.of_nat n)
                                      (if (v <? 0)%Z then (v + Z.of_nat n)%Z else v))
               | None => Z.of_nat n
               end = Z.of_nat b).
  { destruct Hstop as [[-> ->]| ->]; [reflexivity|].
    replace (Z.of_nat b <? 0)%Z with false by (symmetry; apply Z.ltb_ge; lia). lia. }
  rewrite Ha, Hb. f_equal. f_equal.
  destruct (Z.of_nat a <? Z.of_nat b)%Z eqn:Hlt.
  - replace (Z.of_nat b - Z.of_nat a + 1 - 1)%Z with (Z.of_nat (b - a)) by lia.
    rewrite Z.div_1_r. apply Nat2Z.id.
  - apply Z.ltb_ge in Hlt. simpl. lia.
Qed.

Lemma skipn_nth_error {A} (l : list A) (a : nat) (x : A) :
  nth_error l a = Some x -> skipn a l = x :: skipn (S a) l.
Proof.
  revert a. induction l as [|y l IH]; intros [|a] H; simpl in *; try discriminate.
  - injection H as ->. reflexivity.
  - now apply IH.
Qed.

Lemma take_rows_seq {A} (l : list A) (n : nat) :
  forall a,
    a + n <= length l ->
    take_rows l (map (fun k => (Z.of_nat a + Z.of_nat k * 1)%Z) (seq 0 n))
    = inr (firstn n (skipn a l)).
Proof.
  induction n as [|n IH]; intros a Ha; [reflexivity|].
  cbn [seq map]. rewrite <- seq_shift, map_map.
  rewrite (map_ext _ (fun k => (Z.of_nat (S a) + Z.of_nat k * 1)%Z))
    by (intros k; lia).
  cbn [take_rows].
  assert (Hi : in_range (length l) (Z.of_nat a + Z.of_nat 0 * 1))
    by (unfold in_range; lia).
  destruct (normalize_index_in_range _ _ Hi) as [-> _].
  rewrite Z.mod_small by lia.
  replace (Z.to_nat (Z.of_nat a + Z.of_nat 0 * 1)) with a by lia.
  destruct (nth_error l a) as [x|] eqn:Hx; [|apply nth_error_None in Hx; lia].
  rewrite IH by lia. cbn [bind ret].
  now rewrite (skipn_nth_error l a x Hx).
Qed.

(** X10: a slice from [a] to [b] inside the table returns the rows at the
    positions [a] up to [b], [b] left out, in their order; the full slice
    returns a new container with all rows and columns of the table. *)
Theorem getitem_slice_contiguous (h : gmap loc object) (t : loc) (d : DataFrame)
  (a b : nat) :
  frame_of h t = Some d ->
  a <= b <= length (rows d) ->
  (exists r h',
     getitem t (GIndexer (ISlice (Some (Z.of_nat a)) (Some (Z.of_nat b)) None)) h
     = (inr (SubContainer r), h') /\
     frame_of h' r
     = Some (mkDataFrame (columns d) (firstn (b - a) (skipn a (rows d))))) /\
  (exists r h',
     getitem t (GIndexer (ISlice None None None)) h = (inr (SubContainer r), h') /\
     r <> t /\ frame_of h' r = Some d).
Proof.
  intros Hf Hab. split.
  - apply (getitem_indexer_total h t d); [exact Hf|].
    unfold df_iloc. cbn [Z.eqb].
    rewrite (slice_indices_unit _ _ a b (length (rows d))) by auto.
    rewrite take_rows_seq by lia. reflexivity.
  - assert (Hsub : df_iloc d (ISlice None None None) = inr d).
    { unfold df_iloc. cbn [Z.eqb].
      rewrite (slice_indices_unit _ _ 0 (length (rows d)) (length (rows d)))
        by (auto; lia).
      rewrite take_rows_seq by lia. cbn [bind ret skipn].
      rewrite Nat.sub_0_r, firstn_all. now destruct d. }
    rewrite getitem_indexer.
    destruct (copy_and_rebind t (fun f => df_iloc f (ISlice None None None)) h)
      as [res h'] eqn:Hc.
    destruct (copy_and_rebind_spec _ _ _ _ _ _ Hf Hc) as [_ Hres].
    rewrite Hsub in Hres.
    destruct Hres as (r & n & -> & Hr0 & _ & _ & Hr & Hn).
    exists r, h'. split; [reflexivity|]. split.
    + destruct (frame_of_Some h t d Hf) as (dl & Ht & _). congruence.
    + now apply (frame_of_new h' r n).
Qed.

(** ** More on [find] *)

Lemma _parse_loop_unparsed (self : FinderBase) (paths : list string) (pth : string) :
  In pth paths -> parser self pth = None ->
  forall out parsed,
    _parse_loop self paths out parsed = inl (AttributeError no_named_msg).
Proof.
  intros Hin Hnone. induction paths as [|p paths IH]; intros out parsed;
    [inversion Hin|]. simpl.
  destruct (parser self p) as [named|] eqn:Hp; [|reflexivity].
  destruct Hin as [->|Hin]; [congruence | now apply IH].
Qed.

Lemma _parse_paths_raises (self : FinderBase) (paths : list string)
  (pth : string) :
  In pth paths -> parser self pth = None ->
  _parse_paths self paths = inl (AttributeError no_named_msg).
Proof.
  intros Hin Hnone. unfold _parse_paths.
  destruct paths as [|p paths]; [inversion Hin|].
  now rewrite (_parse_loop_unparsed self (p :: paths) pth Hin Hnone).
Qed.

(** X11: when one of the paths does not have the shape of the template,
    [_parse_paths] raises [AttributeError], wherever the path stands in the
    list: no frame with the other paths is made. *)
Theorem _parse_paths_unparsed (self : FinderBase) (paths : list string)
  (pth : string) :
  In pth paths -> parser self pth = None ->
  _parse_paths self paths = inl (AttributeError no_named_msg).
Proof.
  intros Hin Hnone. unfold _parse_paths.
  destruct paths as [|p paths]; [inversion Hin|].
  cut (forall out parsed,
          _parse_loop self (p :: paths) out parsed
          = inl (AttributeError no_named_msg)).
  { intros H. now rewrite H. }
  clear -Hin Hnone. revert Hin. generalize (p :: paths) as l.
  induction l as [|q l IH]; intros Hin out parsed; [inversion Hin|]. simpl.
  destruct (parser self q) as [named|] eqn:Hq; [|reflexivity].
  destruct Hin as [->|Hin]; [congruence | now apply IH].
Qed.

Lemma dict_set_fresh {V} (d : dict V) (k : string) (v : V) :
  ~ In k (map fst d) -> dict_set d k v = d ++ [(k, v)].
Proof.
  induction d as [|[k' v'] d IH]; simpl; [reflexivity|].
  intros H. destruct (String.eqb k' k) eqn:Hk.
  - apply String.eqb_eq in Hk. tauto.
  - rewrite IH; tauto.
Qed.

Lemma dict_update_fresh {V} (kw : dict V) :
  forall d, List.NoDup (map fst (d ++ kw)) -> dict_update d kw = d ++ kw.
Proof.
  unfold dict_update. induction kw as [|[k v] kw IH]; intros d H; simpl.
  - now rewrite app_nil_r.
  - rewrite dict_set_fresh.
    + rewrite IH; rewrite <- app_assoc; [reflexivity | exact H].
    + rewrite map_app in H. apply NoDup_remove_2 in H.
      intros Hin. apply H. apply in_or_app. now left.
Qed.

(** Keyword arguments have distinct names: they are the dictionary. *)
Lemma update_keys_dict_kwargs {V} (kw : dict V) :
  List.NoDup (map fst kw) -> update_keys_dict_with_kwargs None kw = kw.
Proof. intros H. unfold update_keys_dict_with_kwargs. now apply (dict_update_fresh kw []). Qed.

Lemma product_dict_empty (d : dict (list string)) (k : string) :
  In (k, []) d -> product_dict d = [].
Proof.
  induction d as [|[k' vals] d IH]; intros H; [inversion H|]. simpl.
  destruct H as [H|H].
  - injection H as -> ->. reflexivity.
  - rewrite (IH H). clear. induction vals as [|v vals IHv]; [reflexivity | exact IHv].
Qed.

Section FinderMore.

Variable glob : string -> list string.
Variable str_format : string -> dict string -> result string.

Lemma find_step_unparsed (self : FinderBase) (d : dict string) (pat pth : string) :
  create_name str_format self None (_create_condition_dict self d) = inr pat ->
  In pth (glob pat) -> parser self pth = None ->
  find_step glob str_format self d = inl (AttributeError no_named_msg).
Proof.
  intros Hname Hin Hnone. unfold find_step, _glob. rewrite Hname. cbn [bind].
  rewrite (_parse_paths_raises self _ pth); [reflexivity| |exact Hnone].
  eapply Permutation_in; [symmetry; apply sorted_natural_perm | exact Hin].
Qed.

Lemma find_loop_unparsed (self : FinderBase) (combinations : list (dict string))
  (pat pth : string) :
  forall pats list_of_df all_patterns,
    format_all str_format self combinations = inr pats ->
    In pat pats -> In pth (glob pat) -> parser self pth = None ->
    exists e,
      find_loop glob str_format self combinations list_of_df all_patterns = inl e.
Proof.
  induction combinations as [|d combinations IH];
    intros pats list_of_df all_patterns Hfmt Hpat Hin Hnone; simpl in Hfmt.
  - injection Hfmt as <-. inversion Hpat.
  - apply bind_inr in Hfmt as (p & Hp & Hfmt).
    apply bind_inr in Hfmt as (ps & Hps & Hfmt). injection Hfmt as <-.
    cbn [find_loop].
    destruct Hpat as [->|Hpat].
    + rewrite (find_step_unparsed self d pat pth Hp Hin Hnone). simpl. eauto.
    + destruct (find_step glob str_format self d) as [e|[frame fp]]; simpl; [eauto|].
      eapply IH; eauto.
Qed.

(** X12: [find] returns nothing when a path matched by one of its search
    patterns does not parse: it raises, also when other patterns have good
    matches and also when empty results are allowed. *)
Theorem find_unparsed_match (self : FinderBase) (keys : option (dict kwvalue))
  (_allow_empty : bool) (keys_kwargs : dict kwvalue)
  (pats : list string) (pat pth : string) :
  search_patterns str_format self keys_kwargs = inr pats ->
  In pat pats -> In pth (glob pat) -> parser self pth = None ->
  exists e, find glob str_format self keys _allow_empty keys_kwargs = inl e.
Proof.
  intros Hfmt Hpat Hin Hnone. unfold find.
  destruct (find_loop_unparsed self _ pat pth pats [] [] Hfmt Hpat Hin Hnone)
    as [e ->].
  simpl. eauto.
Qed.


(** What the loop of [find] has done when it ends: every combination has
    given its pattern, and the new frames list, pattern after pattern, the
    matches in natural order. *)
Lemma find_loop_trace (self : FinderBase) (combinations : list (dict string)) :
  forall list_of_df all_patterns frames pats,
    find_loop glob str_format self combinations list_of_df all_patterns
      = inr (frames, pats) ->
    exists new_frames new_pats,
      format_all str_format self combinations = inr new_pats /\
      pats = all_patterns ++ new_pats /\
      frames = list_of_df ++ new_frames /\
      concat (map filenames new_frames) = flat_map (matches_of glob self) new_pats /\
      Forall (fun f => exists rest, columns f = "filename" :: rest) new_frames.
Proof.
  induction combinations as [|d combinations IH];
    intros list_of_df all_patterns frames pats H; simpl in H.
  - injection H as <- <-. exists [], []. rewrite !app_nil_r.
    repeat split; constructor.
  - apply bind_inr in H as ([frame pat] & Hstep & H).
    apply IH in H as (nf & np & Hfmt & -> & -> & Hnames & Hcols).
    apply find_step_inr in Hstep as [Hname Hparse].
    cbn [format_all]. rewrite Hname, Hfmt. cbn [bind ret].
    destruct frame as [f|].
    + exists (f :: nf), (pat :: np). rewrite <- !app_assoc.
      split; [reflexivity|]. split; [reflexivity|]. split; [reflexivity|]. split.
      * cbn [map concat flat_map]. rewrite Hnames. f_equal.
        now apply _parse_paths_filenames.
      * constructor; [|exact Hcols].
        apply _parse_paths_some in Hparse as (_ & out & parsed & _ & _ & Hc & _).
        eauto.
    + exists nf, (pat :: np). rewrite <- app_assoc.
      split; [reflexivity|]. split; [reflexivity|]. split; [reflexivity|].
      split; [|exact Hcols].
      cbn [flat_map]. unfold matches_of at 1.
      apply _parse_paths_none in Hparse. now rewrite Hparse.
Qed.

Lemma matches_of_nil (self : FinderBase) (pat : string) :
  matches_of glob self pat = [] -> glob pat = [].
Proof.
  unfold matches_of. intros H. apply map_eq_nil in H.
  pose proof (Permutation_length (sorted_natural_perm (glob pat))) as Hp.
  rewrite H in Hp. destruct (glob pat); [reflexivity | discriminate].
Qed.

Lemma flat_map_nil_inv {A B} (f : A -> list B) (l : list A) :
  flat_map f l = [] -> Forall (fun x => f x = []) l.
Proof.
  induction l as [|x l IH]; simpl; [constructor|].
  intros H. apply app_eq_nil in H as [Hx Hl]. constructor; auto.
Qed.

(** X14: allowing empty results changes nothing for a search that finds
    files: what [find] returns without the option it returns with it, and a
    table it returns with the option it returns without it.  The empty list
    comes back only when no search pattern has a match, where [find]
    without the option raises the error that lists the patterns. *)
Theorem find_allow_empty_only_when_empty (self : FinderBase)
  (keys : option (dict kwvalue)) (keys_kwargs : dict kwvalue) :
  (forall r, find glob str_format self keys false keys_kwargs = inr r ->
             find glob str_format self keys true keys_kwargs = inr r) /\
  (forall fc, find glob str_format self keys true keys_kwargs = inr (Container fc) ->
              find glob str_format self keys false keys_kwargs = inr (Container fc)) /\
  (find glob str_format self keys true keys_kwargs = inr EmptyList ->
   exists pats,
     search_patterns str_format self keys_kwargs = inr pats /\
     Forall (fun p => glob p = []) pats /\
     find glob str_format self keys false keys_kwargs
     = inl (ValueError (no_match_msg pats))).
Proof.
  unfold find, search_patterns.
  destruct (find_loop glob str_format self _ [] []) as [e|[[|d frames] pats]] eqn:Hg;
    cbn [bind].
  - repeat split; intros; discriminate.
  - split; [intros; discriminate|]. split; [intros; discriminate|]. intros _.
    apply find_loop_trace in Hg as (nf & np & Hfmt & -> & Hnf & Hnames & _).
    symmetry in Hnf. apply app_eq_nil in Hnf as [_ ->].
    exists np. split; [exact Hfmt|]. split; [|reflexivity].
    cbn [map concat] in Hnames. symmetry in Hnames.
    apply flat_map_nil_inv in Hnames.
    eapply Forall_impl; [exact Hnames|]. intros p. apply matches_of_nil.
  - split; [auto|]. split; [auto|].
    intros H. apply bind_inr in H as (joined & _ & H).
    destruct (negb _); discriminate.
Qed.

(** X15: a field with an empty list of candidates leaves no combination:
    [find] tries no pattern and looks at no file, and ends as a search
    without a match does, with the empty list or with the error that lists
    no pattern. *)
Theorem find_empty_candidates (self : FinderBase) (keys : option (dict kwvalue))
  (_allow_empty : bool) (keys_kwargs : dict kwvalue) (k : string) :
  List.NoDup (map fst keys_kwargs) ->
  In (k, VList []) keys_kwargs ->
  find glob str_format self keys _allow_empty keys_kwargs
  = if _allow_empty then inr EmptyList else inl (ValueError (no_match_msg [])).
Proof.
  intros Hnd Hin. unfold find. rewrite (update_keys_dict_kwargs _ Hnd).
  rewrite (product_dict_empty _ k); [reflexivity|].
  unfold wrap_strings.
  change (k, @nil string) with
    ((fun kv : string * kwvalue =>
        (fst kv, match snd kv with VStr s => [s] | VList l => l end)) (k, VList [])).
  now apply in_map.
Qed.

Lemma union_columns_head (l : list (list string)) (x : string) (acc : list string) :
  exists rest,
    fold_left (fun acc cols =>
                 acc ++ List.filter (fun c => negb (mem_string c acc)) cols)
      l (x :: acc) = x :: rest.
Proof.
  revert acc. induction l as [|cols l IH]; intros acc; simpl; [eauto|].
  apply IH.
Qed.

Lemma filter_all {A} (f : A -> bool) (l : list A) :
  (forall x, In x l -> f x = true) -> List.filter f l = l.
Proof.
  induction l as [|x l IH]; intros H; simpl; [reflexivity|].
  rewrite (H x) by now left. rewrite IH; [reflexivity|].
  intros y Hy. apply H. now right.
Qed.

Lemma hd_reindex_row (rest cols' : list string) (r : list cell) :
  hd NaN (reindex_row ("filename" :: rest) ("filename" :: cols') r) = hd NaN r.
Proof. destruct r; reflexivity. Qed.

Lemma map_concat_map {A B C} (f : B -> C) (g : A -> list B) (l : list A) :
  map f (concat (map g l)) = concat (map (fun x => map f (g x)) l).
Proof.
  induction l as [|x l IH]; [reflexivity|].
  cbn [map concat]. now rewrite map_app, IH.
Qed.

(** The file names of a concatenation are the file names of its frames,
    one frame after the other. *)
Lemma filenames_pd_concat (d : DataFrame) (frames : list DataFrame) :
  Forall (fun f => exists rest, columns f = "filename" :: rest) (d :: frames) ->
  filenames (pd_concat (d :: frames)) = concat (map filenames (d :: frames)).
Proof.
  intros H. unfold pd_concat, filenames.
  destruct (all_equal _ _); cbn [rows].
  - apply map_concat_map.
  - assert (Hd : exists rest, columns d = "filename" :: rest) by now inversion H.
    destruct Hd as [rest Hd].
    assert (Hu : exists cols',
               union_columns (map columns (d :: frames)) = "filename" :: cols').
    { unfold union_columns. cbn [map fold_left app].
      rewrite (filter_all _ (columns d)) by reflexivity. rewrite Hd.
      apply union_columns_head. }
    destruct Hu as [cols' ->].
    rewrite map_concat_map. f_equal.
    apply map_ext_in. intros f Hf. rewrite map_map.
    apply map_ext. intros r.
    rewrite list.Forall_forall in H.
    destruct (H f) as [rest' ->]; [now apply list_elem_of_In|].
    apply hd_reindex_row.
Qed.

(** X16: a table [find] returns lists, search pattern after search pattern
    in the order of the combinations of the query, the matches of the
    pattern in natural order, each with the suffix of the finder: one row
    per match, none left out and none added. *)
Theorem find_lists_all_matches (self : FinderBase) (keys : option (dict kwvalue))
  (_allow_empty : bool) (keys_kwargs : dict kwvalue) (fc : FileContainer) :
  find glob str_format self keys _allow_empty keys_kwargs = inr (Container fc) ->
  exists pats,
    search_patterns str_format self keys_kwargs = inr pats /\
    filenames (df fc) = flat_map (matches_of glob self) pats /\
    length (rows (df fc)) = list_sum (map (fun p => length (glob p)) pats).
Proof.
  intros H. apply find_container_inv in H as (d & frames & pats & Hg & ->).
  unfold gather in Hg.
  apply find_loop_trace in Hg as (nf & np & Hfmt & -> & Hnf & Hnames & Hcols).
  cbn [app] in Hnf. subst nf. exists np. split; [exact Hfmt|].
  assert (Hfn : filenames (pd_concat (d :: frames))
                = flat_map (matches_of glob self) np)
    by (rewrite filenames_pd_concat; auto).
  split; [exact Hfn|]. cbn [df].
  transitivity (length (filenames (pd_concat (d :: frames))));
    [unfold filenames; now rewrite length_map|].
  rewrite Hfn. clear. induction np as [|p np IH]; [reflexivity|].
  cbn [flat_map map]. rewrite length_app, IH.
  unfold matches_of. rewrite length_map.
  rewrite (Permutation_length (sorted_natural_perm (glob p))). reflexivity.
Qed.

End FinderMore.

(** ** The condition dictionary, the templates and the joined keys *)

Lemma dict_get_set {V} (d : dict V) (k k' : string) (v : V) :
  dict_get (dict_set d k v) k'
  = if String.eqb k k' then Some v else dict_get d k'.
Proof.
  induction d as [|[k0 v0] d IH]; simpl.
  - reflexivity.
  - destruct (String.eqb k0 k) eqn:H0; simpl.
    + apply String.eqb_eq in H0. subst k0.
      destruct (String.eqb k k'); reflexivity.
    + rewrite IH. destruct (String.eqb k0 k') eqn:H1; [|reflexivity].
      apply String.eqb_eq in H1. subst k0.
      now rewrite String.eqb_sym, H0.
Qed.

Lemma dict_get_None {V} (d : dict V) (k : string) :
  ~ In k (map fst d) -> dict_get d k = None.
Proof.
  induction d as [|[k0 v0] d IH]; simpl; [reflexivity|].
  intros H. destruct (String.eqb k0 k) eqn:H0.
  - apply String.eqb_eq in H0. tauto.
  - apply IH. tauto.
Qed.

(** After an update with keyword arguments, a key has the value of the
    keyword arguments if they name it, and else the value it had. *)
Lemma dict_get_update {V} (kw : dict V) :
  List.NoDup (map fst kw) ->
  forall (d : dict V) (k : string),
    dict_get (dict_update d kw) k
    = match dict_get kw k with
      | Some v => Some v
      | None => dict_get d k
      end.
Proof.
  unfold dict_update. induction kw as [|[k0 v0] kw IH]; intros Hnd d k; simpl.
  - reflexivity.
  - inversion Hnd as [|? ? Hk0 Hnd']; subst. rewrite (IH Hnd').
    destruct (String.eqb k0 k) eqn:H0.
    + apply String.eqb_eq in H0. subst k0.
      rewrite (dict_get_None kw k Hk0), dict_get_set. now rewrite String.eqb_refl.
    + destruct (dict_get kw k); [reflexivity|].
      rewrite dict_get_set. now rewrite H0.
Qed.

Lemma dict_get_wildcards (ks : list string) (k : string) :
  dict_get (map (fun key => (key, "*")) ks) k
  = if mem_string k ks then Some "*" else None.
Proof.
  induction ks as [|k0 ks IH]; simpl; [reflexivity|].
  rewrite (String.eqb_sym k k0).
  destruct (String.eqb k0 k); [reflexivity | exact IH].
Qed.

(** X17: the condition dictionary of a search has a value for every key of
    the finder: the value the query gives, and else the wildcard.  A name the
    query gives beyond the keys of the finder is kept with its value. *)
Theorem _create_condition_dict_lookup (self : FinderBase) (kwargs : dict string)
  (k : string) :
  List.NoDup (map fst kwargs) ->
  dict_get (_create_condition_dict self kwargs) k
  = match dict_get kwargs k with
    | Some v => Some v
    | None => if bool_decide (k ∈ keys self) then Some "*" else None
    end.
Proof.
  intros Hnd. unfold _create_condition_dict.
  rewrite (dict_get_update kwargs Hnd), dict_get_wildcards.
  destruct (dict_get kwargs k); [reflexivity|].
  destruct (mem_string k (elements (keys self))) eqn:Hm.
  - apply mem_string_In, list_elem_of_In, elem_of_elements in Hm.
    now rewrite bool_decide_eq_true_2.
  - rewrite bool_decide_eq_false_2; [reflexivity|].
    intros Hin. apply mem_string_not_In in Hm. apply Hm.
    now apply list_elem_of_In, elem_of_elements.
Qed.

Lemma os_path_join_one (a b : string) :
  os_path_join a [b]
  = if String.prefix "/" b then b
    else if String.eqb a "" || ends_with a "/" then a +:+ b
         else a +:+ "/" +:+ b.
Proof. reflexivity. Qed.

Lemma nonempty_true (s : string) : s <> "" -> nonempty s = true.
Proof. intros H. unfold nonempty. apply String.eqb_neq in H. now rewrite H. Qed.

Section Templates.

Variable parse_compile : string -> string -> option (dict string).
Variable _find_keys : string -> gset string.

(** X18: [FileFinder] cannot be made of two empty templates: the join of
    nothing raises [TypeError].  With one template empty, the full template
    is the other one as it is, and an empty directory template leaves the
    path finder with the empty template. *)
Theorem FileFinder_init_empty_templates (path_pattern file_pattern : string) :
  FileFinder_init parse_compile _find_keys "" ""
  = inl (TypeError "join() missing 1 required positional argument: 'a'") /\
  (file_pattern <> "" ->
   exists ff,
     FileFinder_init parse_compile _find_keys "" file_pattern = inr ff /\
     pattern (full ff) = file_pattern /\ pattern (path ff) = "") /\
  (path_pattern <> "" ->
   exists ff,
     FileFinder_init parse_compile _find_keys path_pattern "" = inr ff /\
     pattern (full ff) = path_pattern /\ pattern (file ff) = "").
Proof.
  split; [reflexivity|]. split.
  - intros Hf. unfold FileFinder_init. cbn [List.filter nonempty String.eqb negb].
    rewrite (nonempty_true _ Hf). eexists. split; [reflexivity|].
    split; reflexivity.
  - intros Hp. unfold FileFinder_init. cbn [List.filter].
    rewrite (nonempty_true _ Hp). cbn [nonempty String.eqb negb].
    eexists. split; [reflexivity|]. split; reflexivity.
Qed.

(** X19: for a directory template and a file template that are not empty,
    the full template is the template of the path finder followed by the
    file template: the directory, one separator, the file name.  A file
    template that starts with a separator is the exception: it is the full
    template alone, and the directory is dropped. *)
Theorem FileFinder_init_full_template (path_pattern file_pattern : string) :
  path_pattern <> "" -> file_pattern <> "" ->
  exists ff,
    FileFinder_init parse_compile _find_keys path_pattern file_pattern = inr ff /\
    pattern (file ff) = file_pattern /\
    (String.prefix "/" file_pattern = false ->
     pattern (full ff) = pattern (path ff) +:+ file_pattern) /\
    (String.prefix "/" file_pattern = true ->
     pattern (full ff) = file_pattern).
Proof.
  intros Hp Hf. unfold FileFinder_init. cbn [List.filter].
  rewrite (nonempty_true _ Hp), (nonempty_true _ Hf).
  eexists. split; [reflexivity|].
  cbn [file path full pattern FinderBase_init]. split; [reflexivity|].
  rewrite !os_path_join_one. split; intros Hpre; rewrite Hpre; [|reflexivity].
  change (String.prefix "/" "") with false. cbv iota.
  destruct (String.eqb path_pattern "" || ends_with path_pattern "/").
  - now rewrite append_nil_r.
  - rewrite !append_assoc. reflexivity.
Qed.

End Templates.





Lemma index_of_app_fresh (k : string) (pre l : list string) :
  ~ In k pre -> index_of k (pre ++ k :: l) = Some (length pre).
Proof.
  induction pre as [|p pre IH]; intros H; simpl.
  - now rewrite String.eqb_refl.
  - destruct (String.eqb p k) eqn:Hp.
    + apply String.eqb_eq in Hp. subst. exfalso. apply H. now left.
    + rewrite IH; [reflexivity|]. intros Hin. apply H. now right.
Qed.

Lemma positions_suffix (l : list string) :
  forall pre,
    List.NoDup (pre ++ l) ->
    positions l (pre ++ l) = inr (seq (length pre) (length l)).
Proof.
  assert (H : forall pre,
             List.NoDup (pre ++ l) ->
             lookup_positions l (pre ++ l) = Some (seq (length pre) (length l))).
  { induction l as [|k l IH]; intros pre Hnd; simpl; [reflexivity|].
    rewrite index_of_app_fresh.
    2:{ apply NoDup_remove_2 in Hnd. intros Hin. apply Hnd.
        apply in_or_app. now left. }
    specialize (IH (pre ++ [k])). rewrite <- app_assoc in IH. cbn [app] in IH.
    rewrite IH by exact Hnd.
    rewrite length_app. cbn [length]. now rewrite Nat.add_1_r. }
  intros pre Hnd. unfold positions. now rewrite (H pre Hnd).
Qed.

Lemma map_nth_seq {A} (r : list A) (x : A) (n : nat) :
  forall a,
    a + n <= length r ->
    map (fun i => nth i r x) (seq a n) = firstn n (skipn a r).
Proof.
  induction n as [|n IH]; intros a Ha; [reflexivity|].
  cbn [seq map]. rewrite IH by lia.
  destruct (nth_error r a) as [y|] eqn:Hy; [|apply nth_error_None in Hy; lia].
  rewrite (skipn_nth_error r a y Hy). cbn [firstn]. f_equal.
  now apply nth_error_nth.
Qed.

(** X21: on a frame whose first column is [filename], whose column names
    are distinct and whose rows are as wide as the columns, the joined key
    of a row is the text of its cells behind the file name, in the order of
    the columns, joined by the separator. *)
Theorem combine_by_key_joins_fields (fc : FileContainer) (fields : list string)
  (sep : string) :
  columns (df fc) = "filename" :: fields ->
  List.NoDup ("filename" :: fields) ->
  Forall (fun r => length r = S (length fields)) (rows (df fc)) ->
  combine_by_key fc None sep
  = inr (map (fun r => str_join sep (map cell_str (tl r))) (rows (df fc))).
Proof.
  intros Hc Hnd Hrows. unfold combine_by_key, index_drop. rewrite Hc.
  assert (Hm : mem_string "filename" ("filename" :: fields) = true)
    by (apply mem_string_In; now left).
  rewrite Hm. cbn [bind ret].
  assert (Hf : List.filter (fun c => negb (String.eqb c "filename"))
                 ("filename" :: fields) = fields).
  { cbn [List.filter]. rewrite String.eqb_refl. cbn [negb].
    apply filter_all. intros c Hin. apply negb_true_iff, String.eqb_neq.
    intros ->. now inversion Hnd. }
  rewrite Hf. unfold df_getitems. rewrite Hc.
  pose proof (positions_suffix fields ["filename"] Hnd) as Hpos.
  cbn [app length] in Hpos. cbn [columns]. rewrite Hpos. cbn [bind ret rows].
  f_equal. rewrite map_map. apply map_ext_in. intros r Hr.
  rewrite list.Forall_forall in Hrows.
  specialize (Hrows r (proj2 (list_elem_of_In _ _) Hr)).
  f_equal. f_equal. unfold row_cell.
  rewrite (map_nth_seq r NaN (length fields) 1) by lia.
  destruct r as [|c r]; [discriminate|]. cbn [skipn tl].
  apply firstn_all2. simpl in Hrows. lia.
Qed.

(** ** The further properties at work in the small world *)

Lemma search_key_error_witness :
  fst (search Demo.t [("month", QNone); ("colour", QVal "x"); ("size", QVal "y")]
         Demo.heap)
  = inl (KeyError "colour").
Proof.
  exact (search_key_error Demo.heap Demo.t Demo.table
           [("month", QNone); ("colour", QVal "x"); ("size", QVal "y")] demo_frame).
Defined.

Lemma demo_search_var :
  search Demo.t [("var", QList ["a"])] Demo.heap
  = (inr 3%positive, snd (search Demo.t [("var", QList ["a"])] Demo.heap)).
Proof. vm_compute. reflexivity. Qed.

Lemma demo_search_var_frame :
  frame_of (snd (search Demo.t [("var", QList ["a"])] Demo.heap)) 3%positive
  = Some (mkDataFrame ["filename"; "var"; "year"]
            [[Str "data/a_2000.nc"; Str "a"; Str "2000"];
             [Str "data/a_2001.nc"; Str "a"; Str "2001"]]).
Proof. vm_compute. reflexivity. Qed.

Lemma search_selects_rows_witness :
  exists sub,
    frame_of (snd (search Demo.t [("var", QList ["a"])] Demo.heap)) 3%positive
    = Some sub /\
    columns sub = columns Demo.table /\
    sublist (rows sub) (rows Demo.table) /\
    len 3%positive (snd (search Demo.t [("var", QList ["a"])] Demo.heap))
    = inr (length (rows sub)) /\
    length (rows sub) <= length (rows Demo.table).
Proof.
  exact (search_selects_rows Demo.heap Demo.t Demo.table [("var", QList ["a"])]
           3%positive _ demo_frame demo_search_var).
Defined.

Lemma search_twice_witness :
  exists r h',
    search Demo.t ([("var", QList ["a"])] ++ [("year", QVal "2001")]) Demo.heap
    = (inr r, h') /\
    frame_of h' r
    = frame_of
        (snd (search 3%positive [("year", QVal "2001")]
                (snd (search Demo.t [("var", QList ["a"])] Demo.heap))))
        5%positive.
Proof.
  apply (search_twice Demo.heap Demo.t Demo.table
           [("var", QList ["a"])] [("year", QVal "2001")] 3%positive 5%positive
           (snd (search Demo.t [("var", QList ["a"])] Demo.heap))).
  - exact demo_frame.
  - discriminate.
  - discriminate.
  - exact demo_search_var.
  - vm_compute. reflexivity.
Defined.

Lemma search_again_witness :
  frame_of
    (snd (search 3%positive [("var", QList ["a"])]
            (snd (search Demo.t [("var", QList ["a"])] Demo.heap))))
    5%positive
  = frame_of (snd (search Demo.t [("var", QList ["a"])] Demo.heap)) 3%positive.
Proof.
  apply (search_again Demo.heap Demo.t Demo.table [("var", QList ["a"])]
           3%positive 5%positive).
  - exact demo_frame.
  - exact demo_search_var.
  - vm_compute. reflexivity.
Defined.

Lemma getitem_integer_witness :
  getitem Demo.t (GInt (-1)%Z) Demo.heap = getitem Demo.t (GInt 2%Z) Demo.heap.
Proof.
  refine (proj2 (proj2 (getitem_integer Demo.heap Demo.t Demo.table (-1)%Z
                          demo_frame)) _ _).
  - unfold in_range. simpl. lia.
  - lia.
Defined.

Lemma iter_agrees_with_getitem_witness :
  len Demo.t Demo.heap = inr 3 /\
  getitem Demo.t (GInt 1%Z) Demo.heap
  = (inr (Element (Str "data/a_2001.nc") [("var", Str "a"); ("year", Str "2001")]),
     Demo.heap).
Proof.
  destruct (iter_agrees_with_getitem Demo.heap Demo.t Demo.table
              [(Str "data/a_2000.nc", [("var", Str "a"); ("year", Str "2000")]);
               (Str "data/a_2001.nc", [("var", Str "a"); ("year", Str "2001")]);
               (Str "data/b_2000.nc", [("var", Str "b"); ("year", Str "2000")])]
              demo_frame)
    as [Hlen Hget].
  - vm_compute. reflexivity.
  - split; [exact Hlen|]. exact (Hget 1 _ eq_refl).
Defined.

Lemma iter_needs_filename_witness :
  exists items, iter Demo.t Demo.heap = inr items.
Proof.
  refine (proj1 (iter_needs_filename Demo.heap Demo.t Demo.table demo_frame) _).
  simpl. tauto.
Defined.

Lemma getitem_slice_witness :
  exists r h' sub,
    getitem Demo.t (GIndexer (ISlice (Some (-2)%Z) (Some 100%Z) None)) Demo.heap
    = (inr (SubContainer r), h') /\
    frame_of h' r = Some sub /\
    columns sub = columns Demo.table /\
    (forall x, In x (rows sub) -> In x (rows Demo.table)).
Proof.
  refine (proj1 (getitem_slice Demo.heap Demo.t Demo.table
                   (Some (-2)%Z) (Some 100%Z) None demo_frame) _).
  discriminate.
Defined.

Lemma getitem_list_witness :
  exists r h' sub,
    getitem Demo.t (GIndexer (IList [2%Z; (-3)%Z; 2%Z])) Demo.heap
    = (inr (SubContainer r), h') /\
    frame_of h' r = Some sub /\
    columns sub = columns Demo.table /\
    Forall2 (fun i x => at_position (rows Demo.table) i = Some x)
      [2%Z; (-3)%Z; 2%Z] (rows sub).
Proof.
  refine (proj1 (getitem_list Demo.heap Demo.t Demo.table [2%Z; (-3)%Z; 2%Z]
                   demo_frame) _).
  repeat constructor; simpl; lia.
Defined.

Lemma getitem_slice_contiguous_witness :
  exists r h',
    getitem Demo.t (GIndexer (ISlice (Some 1%Z) (Some 3%Z) None)) Demo.heap
    = (inr (SubContainer r), h') /\
    frame_of h' r
    = Some (mkDataFrame (columns Demo.table)
              (firstn (3 - 1) (skipn 1 (rows Demo.table)))).
Proof.
  refine (proj1 (getitem_slice_contiguous Demo.heap Demo.t Demo.table 1 3
                   demo_frame _)).
  simpl. lia.
Defined.

Lemma _parse_paths_unparsed_witness :
  _parse_paths Fixture.full_finder ["data/a_2000.nc"; "readme.txt"]
  = inl (AttributeError no_named_msg).
Proof.
  apply (_parse_paths_unparsed Fixture.full_finder _ "readme.txt").
  - simpl. tauto.
  - vm_compute. reflexivity.
Defined.

(** A file whose year is empty matches the search pattern, where [*] may
    stand for nothing, and does not parse, where a field needs a
    character. *)
Lemma find_unparsed_match_witness :
  exists e,
    find (Fixture.glob ["data/a_2000.nc"; "data/x_.nc"]) Fixture.str_format
      Fixture.full_finder None true []
    = inl e.
Proof.
  apply (find_unparsed_match (Fixture.glob ["data/a_2000.nc"; "data/x_.nc"])
           Fixture.str_format Fixture.full_finder None true []
           ["data/*_*.nc"] "data/*_*.nc" "data/x_.nc").
  - vm_compute. reflexivity.
  - now left.
  - vm_compute. tauto.
  - vm_compute. reflexivity.
Defined.

Lemma fixture_find :
  find (Fixture.glob Fixture.fs) Fixture.str_format Fixture.full_finder None false []
  = inr (Container (mkFileContainer Demo.table)).
Proof. vm_compute. reflexivity. Qed.


Lemma find_allow_empty_only_when_empty_witness :
  find (Fixture.glob Fixture.fs) Fixture.str_format Fixture.full_finder None true []
  = inr (Container (mkFileContainer Demo.table)).
Proof.
  exact (proj1 (find_allow_empty_only_when_empty (Fixture.glob Fixture.fs)
                  Fixture.str_format Fixture.full_finder None [])
           _ fixture_find).
Defined.

Lemma find_empty_candidates_witness :
  find (Fixture.glob Fixture.fs) Fixture.str_format Fixture.full_finder None false
    [("var", VStr "a"); ("year", VList [])]
  = inl (ValueError (no_match_msg [])).
Proof.
  apply (find_empty_candidates (Fixture.glob Fixture.fs) Fixture.str_format
           Fixture.full_finder None false
           [("var", VStr "a"); ("year", VList [])] "year").
  - repeat constructor; simpl; intuition discriminate.
  - simpl. tauto.
Defined.

Lemma find_lists_all_matches_witness :
  exists pats,
    search_patterns Fixture.str_format Fixture.full_finder [] = inr pats /\
    filenames Demo.table
    = flat_map (matches_of (Fixture.glob Fixture.fs) Fixture.full_finder) pats /\
    length (rows Demo.table)
    = list_sum (map (fun p => length (Fixture.glob Fixture.fs p)) pats).
Proof.
  exact (find_lists_all_matches (Fixture.glob Fixture.fs) Fixture.str_format
           Fixture.full_finder None false [] _ fixture_find).
Defined.

Lemma _create_condition_dict_lookup_witness :
  dict_get (_create_condition_dict Fixture.full_finder [("year", "2000")]) "var"
  = Some "*".
Proof.
  etransitivity.
  - apply (_create_condition_dict_lookup Fixture.full_finder [("year", "2000")] "var").
    repeat constructor; simpl; tauto.
  - vm_compute. reflexivity.
Defined.

Lemma FileFinder_init_empty_templates_witness :
  exists ff,
    FileFinder_init Fixture.parse_compile Fixture._find_keys "" "{var}_{year}.nc"
    = inr ff /\
    pattern (full ff) = "{var}_{year}.nc" /\ pattern (path ff) = "".
Proof.
  refine (proj1 (proj2 (FileFinder_init_empty_templates Fixture.parse_compile
                          Fixture._find_keys "data" "{var}_{year}.nc")) _).
  discriminate.
Defined.

Lemma FileFinder_init_full_template_witness :
  exists ff,
    FileFinder_init Fixture.parse_compile Fixture._find_keys "data" "{var}_{year}.nc"
    = inr ff /\
    pattern (file ff) = "{var}_{year}.nc" /\
    (String.prefix "/" "{var}_{year}.nc" = false ->
     pattern (full ff) = pattern (path ff) +:+ "{var}_{year}.nc") /\
    (String.prefix "/" "{var}_{year}.nc" = true ->
     pattern (full ff) = "{var}_{year}.nc").
Proof.
  apply (FileFinder_init_full_template Fixture.parse_compile Fixture._find_keys
           "data" "{var}_{year}.nc"); discriminate.
Defined.


Lemma combine_by_key_joins_fields_witness :
  combine_by_key (mkFileContainer Demo.table) None "."
  = inr (map (fun r => str_join "." (map cell_str (tl r))) (rows Demo.table)).
Proof.
  apply (combine_by_key_joins_fields (mkFileContainer Demo.table) ["var"; "year"] ".").
  - reflexivity.
  - repeat constructor; simpl; intuition discriminate.
  - repeat constructor.
Defined.
